(** * hanziconv: conversion between simplified and traditional Chinese text

    A shallow embedding of [hanziconv/hanziconv.py] (class [HanziConv]) and
    the properties of its conversion, comparison and character-map editing
    operations.

    Python text ([str]) is a sequence of Unicode code points; it is modelled
    as a list of code points.  The two class attributes
    [__simplified_charmap] and [__traditional_charmap] are the shared state of
    the class: every class method reads them and the two editing methods
    rebind them, so they are threaded explicitly.  The bundled tables of
    [hanziconv/charmap.py] only give their initial value, so every statement
    is made for arbitrary inventories. *)

From Stdlib Require Import List ZArith NArith Bool Lia.
From Stdlib.Strings Require Import Byte.
From Stdlib.Strings Require String.
Import ListNotations.

Set Implicit Arguments.

(** ** Python primitives used by the class *)

Module Py.

(** A character is a Unicode code point, a [str] is a list of them. *)
Definition char := N.
Definition str := list char.

Definition char_eqb (a b : char) : bool := N.eqb a b.

Fixpoint str_eqb (a b : str) : bool :=
  match a, b with
  | [], [] => true
  | x :: a', y :: b' => char_eqb x y && str_eqb a' b'
  | _, _ => false
  end.

(** [len(s)] *)
Definition len (s : str) : Z := Z.of_nat (length s).

(** [s.startswith(sub)] *)
Fixpoint startswith (s sub : str) {struct sub} : bool :=
  match sub, s with
  | [], _ => true
  | x :: sub', y :: s' => char_eqb x y && startswith s' sub'
  | _ :: _, [] => false
  end.

(** [sub in s]: [sub] occurs in [s] as a contiguous run of characters. *)
Fixpoint contains (s sub : str) : bool :=
  startswith s sub ||
  match s with
  | [] => false
  | _ :: s' => contains s' sub
  end.

(** [s.find(sub)], counting positions from [pos]: the lowest index at which
    [sub] occurs, or [-1]. *)
Fixpoint find_from (pos : Z) (s sub : str) : Z :=
  if startswith s sub then pos
  else match s with
       | [] => (-1)%Z
       | _ :: s' => find_from (pos + 1) s' sub
       end.

Definition find (s sub : str) : Z := find_from 0 s sub.

(** The characters for which [str.isspace] holds; [str.split()] splits on
    them. *)
Definition isspace (c : char) : bool :=
  ((9 <=? c) && (c <=? 13) || (28 <=? c) && (c <=? 32) ||
   (c =? 133) || (c =? 160) || (c =? 5760) ||
   (8192 <=? c) && (c <=? 8202) ||
   (c =? 8232) || (c =? 8233) || (c =? 8239) || (c =? 8287) ||
   (c =? 12288))%N.

(** [s.split()] without a separator: the maximal runs of characters that are
    not whitespace, in order; no empty string is produced.  [cur] is the run
    being read. *)
Fixpoint split_from (cur : str) (s : str) : list str :=
  match s with
  | [] => match cur with [] => [] | _ => [cur] end
  | c :: s' =>
      if isspace c
      then match cur with
           | [] => split_from [] s'
           | _ => cur :: split_from [] s'
           end
      else split_from (cur ++ [c]) s'
  end.

Definition split (s : str) : list str := split_from [] s.

(** [s.replace(old, '')]: the occurrences of [old] are deleted, found from
    left to right without overlap.  [skip] counts the characters of the
    occurrence being deleted that are still to be dropped.  With an empty
    [old] Python inserts the (empty) replacement between the characters, so
    the text is unchanged. *)
Fixpoint delete_from (skip : nat) (s old : str) : str :=
  match s with
  | [] => []
  | c :: s' =>
      match skip with
      | S k => delete_from k s' old
      | O =>
          if startswith s old
          then delete_from (length old - 1) s' old
          else c :: delete_from 0 s' old
      end
  end.

Definition delete (s old : str) : str :=
  match old with
  | [] => s
  | _ => delete_from 0 s old
  end.

(** [''.join(parts)] *)
Definition join (parts : list str) : str := concat parts.

(** The exceptions the class can end with.  [ValueError] carries its
    message: the class raises it at four places with two messages. *)
Inductive exn : Type :=
| ValueError (msg : String.string)
| IndexError
| UnicodeDecodeError.

Inductive result (A : Type) : Type :=
| Ok (a : A)
| Raise (e : exn).
Arguments Ok {A} a.
Arguments Raise {A} e.

(** [s[i]]: a negative index counts from the end, an index outside the
    text raises [IndexError]. *)
Definition getitem (s : str) (i : Z) : result char :=
  let j := if (i <? 0)%Z then (i + len s)%Z else i in
  if (j <? 0)%Z then Raise IndexError
  else match nth_error s (Z.to_nat j) with
       | Some c => Ok c
       | None => Raise IndexError
       end.

End Py.

(** ** UTF-8 decoding, [bytes.decode('utf-8')] *)

Module Utf8.
Import Py.

Definition between (lo hi n : N) : bool := ((lo <=? n) && (n <=? hi))%N.

(** A continuation byte, [10xxxxxx]. *)
Definition continuation (n : N) : bool := between 128 191 n.

(** The second byte allowed after a lead byte of a three or four byte
    sequence: the narrower ranges exclude overlong forms, surrogates and code
    points above U+10FFFF. *)
Definition second_ok (lead n : N) : bool :=
  (if lead =? 224 then between 160 191 n
   else if lead =? 237 then between 128 159 n
   else if lead =? 240 then between 144 191 n
   else if lead =? 244 then between 128 143 n
   else continuation n)%N.

(** The strict decoder: [None] where Python raises [UnicodeDecodeError]. *)
Fixpoint decode (bs : list byte) : option str :=
  match bs with
  | [] => Some []
  | b0 :: r0 =>
      let n0 := Byte.to_N b0 in
      if (n0 <? 128)%N then option_map (cons n0) (decode r0)
      else if between 194 223 n0 then
        match r0 with
        | b1 :: r1 =>
            let n1 := Byte.to_N b1 in
            if continuation n1
            then option_map (cons ((n0 - 192) * 64 + (n1 - 128))%N) (decode r1)
            else None
        | _ => None
        end
      else if between 224 239 n0 then
        match r0 with
        | b1 :: b2 :: r2 =>
            let n1 := Byte.to_N b1 in
            let n2 := Byte.to_N b2 in
            if second_ok n0 n1 && continuation n2
            then option_map
                   (cons ((n0 - 224) * 4096 + (n1 - 128) * 64 + (n2 - 128))%N)
                   (decode r2)
            else None
        | _ => None
        end
      else if between 240 244 n0 then
        match r0 with
        | b1 :: b2 :: b3 :: r3 =>
            let n1 := Byte.to_N b1 in
            let n2 := Byte.to_N b2 in
            let n3 := Byte.to_N b3 in
            if second_ok n0 n1 && continuation n2 && continuation n3
            then option_map
                   (cons ((n0 - 240) * 262144 + (n1 - 128) * 4096 +
                          (n2 - 128) * 64 + (n3 - 128))%N)
                   (decode r3)
            else None
        | _ => None
        end
      else None
  end.

End Utf8.

(** ** The class [HanziConv] *)

Import Py.

(** The class attributes. *)
Record HanziConv : Type := {
  __traditional_charmap : str;
  __simplified_charmap : str
}.

(** A class method runs on the class attributes and ends with a value or an
    exception, leaving the attributes as they are at that moment: an
    exception does not undo the assignments made before it. *)
Definition M (A : Type) : Type := HanziConv -> result A * HanziConv.

Definition ret {A} (a : A) : M A := fun cls => (Ok a, cls).

Definition bind {A B} (m : M A) (f : A -> M B) : M B :=
  fun cls =>
    match m cls with
    | (Ok a, cls') => f a cls'
    | (Raise e, cls') => (Raise e, cls')
    end.

Definition raise {A} (e : exn) : M A := fun cls => (Raise e, cls).

Definition get_simplified : M str := fun cls => (Ok (__simplified_charmap cls), cls).
Definition get_traditional : M str := fun cls => (Ok (__traditional_charmap cls), cls).

Definition set_simplified (s : str) : M unit :=
  fun cls => (Ok tt, {| __traditional_charmap := __traditional_charmap cls;
                        __simplified_charmap := s |}).
Definition set_traditional (s : str) : M unit :=
  fun cls => (Ok tt, {| __traditional_charmap := s;
                        __simplified_charmap := __simplified_charmap cls |}).

Declare Scope py_scope.
Delimit Scope py_scope with py.
Notation "x <- m ;; k" := (bind m (fun x => k))
  (at level 61, m at next level, right associativity) : py_scope.
Notation "m ;; k" := (bind m (fun _ => k))
  (at level 61, right associativity) : py_scope.
Open Scope py_scope.

(** [for x in l: body x] *)
Fixpoint for_each {A} (l : list A) (body : A -> M unit) : M unit :=
  match l with
  | [] => ret tt
  | x :: l' => body x ;; for_each l' body
  end.

(** The two messages the class gives to its [ValueError]s. *)
Module Messages.
Import String.
Definition unequal_length : string :=
  "length of simplified_chars is not equal to traditional_chars"%string.
Definition no_match : string :=
  "simplified_chars don't match to traditional_chars"%string.
End Messages.

(** The names the specification gives to the errors. *)
Definition ArityMismatchError : exn := ValueError Messages.unequal_length.
Definition ConsistencyError : exn := ValueError Messages.no_match.
Definition DecodingError : exn := UnicodeDecodeError.

(** [HanziConv.ignore_char_map] *)
Definition ignore_char_map (simplified_chars traditional_chars : str) : M unit :=
  if negb (len simplified_chars =? len traditional_chars)%Z
  then raise ArityMismatchError
  else
    for_each (split simplified_chars) (fun simplified_char =>
      m <- get_simplified ;;
      set_simplified (delete m simplified_char)) ;;
    for_each (split traditional_chars) (fun traditional_char =>
      m <- get_traditional ;;
      set_traditional (delete m traditional_char)) ;;
    s <- get_simplified ;;
    t <- get_traditional ;;
    if negb (len s =? len t)%Z
    then raise ConsistencyError
    else ret tt.

(** The loops of [extend_char_map]: the groups that do not occur in the
    character map are collected in order. *)
Fixpoint extra_chars (charmap : str) (groups : list str) (extra : list str)
  : list str :=
  match groups with
  | [] => extra
  | g :: groups' =>
      if contains charmap g
      then extra_chars charmap groups' extra
      else extra_chars charmap groups' (extra ++ [g])
  end.

(** [HanziConv.extend_char_map] *)
Definition extend_char_map (simplified_chars traditional_chars : str) : M unit :=
  if negb (len simplified_chars =? len traditional_chars)%Z
  then raise ArityMismatchError
  else
    s <- get_simplified ;;
    let extra_simplified_chars := extra_chars s (split simplified_chars) [] in
    t <- get_traditional ;;
    let extra_traditional_chars := extra_chars t (split traditional_chars) [] in
    if negb (Z.of_nat (length extra_simplified_chars) =?
             Z.of_nat (length extra_traditional_chars))%Z
    then raise ConsistencyError
    else
      s <- get_simplified ;;
      set_simplified (s ++ join extra_simplified_chars) ;;
      t <- get_traditional ;;
      set_traditional (t ++ join extra_traditional_chars).

(** The argument [text] of the conversions: [bytes] or [str]. *)
Inductive pytext : Type :=
| PyBytes (b : list byte)
| PyStr (s : str).

(** [if isinstance(text, bytes): text = text.decode('utf-8')] *)
Definition as_str (text : pytext) : result str :=
  match text with
  | PyStr s => Ok s
  | PyBytes b =>
      match Utf8.decode b with
      | Some s => Ok s
      | None => Raise UnicodeDecodeError
      end
  end.

(** The loop of [__convert] over the characters of [text]; [final] is the
    list of one-character strings built so far. *)
Fixpoint convert_loop (fromMap toMap : str) (text : str) (final : list str)
  : result (list str) :=
  match text with
  | [] => Ok final
  | c :: text' =>
      let index := find fromMap [c] in
      if negb (index =? -1)%Z
      then match getitem toMap index with
           | Ok d => convert_loop fromMap toMap text' (final ++ [[d]])
           | Raise e => Raise e
           end
      else convert_loop fromMap toMap text' (final ++ [[c]])
  end.

(** [HanziConv.__convert] *)
Definition __convert (text : pytext) (toTraditional : bool) : M str :=
  match as_str text with
  | Raise e => raise e
  | Ok text =>
      s <- get_simplified ;;
      t <- get_traditional ;;
      let fromMap := if negb toTraditional then t else s in
      let toMap := if negb toTraditional then s else t in
      match convert_loop fromMap toMap text [] with
      | Ok final => ret (join final)
      | Raise e => raise e
      end
  end.

(** [HanziConv.toSimplified] and [HanziConv.toTraditional] *)
Definition toSimplified (text : pytext) : M str := __convert text false.
Definition toTraditional (text : pytext) : M str := __convert text true.

(** [HanziConv.same] *)
Definition same (text1 text2 : pytext) : M bool :=
  t1 <- toSimplified text1 ;;
  t2 <- toSimplified text2 ;;
  ret (str_eqb t1 t2).

(** ** Words of the specification *)

(** Invariant I1: the two inventories have the same length. *)
Definition I1 (cls : HanziConv) : Prop :=
  length (__simplified_charmap cls) = length (__traditional_charmap cls).

(** The source and the target inventory of a conversion: the traditional
    inventory is searched when converting to simplified, the simplified one
    when converting to traditional. *)
Definition source_inventory (toTraditional : bool) (cls : HanziConv) : str :=
  if toTraditional then __simplified_charmap cls else __traditional_charmap cls.
Definition target_inventory (toTraditional : bool) (cls : HanziConv) : str :=
  if toTraditional then __traditional_charmap cls else __simplified_charmap cls.

(** [c] occurs in [s] at index [i] and at no smaller index. *)
Definition first_at (s : str) (c : char) (i : nat) : Prop :=
  nth_error s i = Some c /\ forall j, (j < i)%nat -> nth_error s j <> Some c.

(** What the specification says is emitted for the character [c]: the
    character of the target inventory at the index of the first occurrence
    of [c] in the source inventory, or [c] itself when it does not occur. *)
Definition emits (source target : str) (c d : char) : Prop :=
  (exists i, first_at source c i /\ nth_error target i = Some d) \/
  (~ In c source /\ d = c).

(** The flattened character list of an argument of the editing methods: its
    characters without the whitespace delimiters. *)
Definition flattened (chars : str) : str := concat (split chars).

(** A group of exactly one character. *)
Definition single (g : str) : Prop := length g = 1%nat.

(** The characters of [inventory] that are not listed in [chars]. *)
Definition without (chars inventory : str) : str :=
  filter (fun c => negb (existsb (char_eqb c) chars)) inventory.

(** The states the class can be in: it starts with two inventories of equal
    length and is changed by calls of the two editing methods, whatever their
    outcome. *)
Inductive reachable : HanziConv -> Prop :=
| reach_init cls : I1 cls -> reachable cls
| reach_ignore cls s t :
    reachable cls -> reachable (snd (ignore_char_map s t cls))
| reach_extend cls s t :
    reachable cls -> reachable (snd (extend_char_map s t cls)).

(** A character that is not whitespace. *)
Definition not_space (c : char) : bool := negb (isspace c).

(** The attributes after the two loops of [ignore_char_map]. *)
Definition ignored (simplified_chars traditional_chars : str)
    (cls : HanziConv) : HanziConv :=
  {| __traditional_charmap :=
       fold_left delete (split traditional_chars) (__traditional_charmap cls);
     __simplified_charmap :=
       fold_left delete (split simplified_chars) (__simplified_charmap cls) |}.

(** The groups of an argument that [extend_char_map] stages as new. *)
Definition staged (charmap chars : str) : list str :=
  filter (fun g => negb (contains charmap g)) (split chars).

(** The attributes after a successful [extend_char_map]. *)
Definition extended (simplified_chars traditional_chars : str)
    (cls : HanziConv) : HanziConv :=
  {| __traditional_charmap :=
       __traditional_charmap cls ++
       join (staged (__traditional_charmap cls) traditional_chars);
     __simplified_charmap :=
       __simplified_charmap cls ++
       join (staged (__simplified_charmap cls) simplified_chars) |}.

(** [c] stands in the first list exactly where [d] stands in the second. *)
Definition aligned (c d : char) (source target : str) : Prop :=
  Forall2 (fun a b => a = c <-> b = d) source target.

(** ** A small character map for examples

    Four pairs in the style of the bundled tables: 简/簡, 转/轉, 换/換 and
    郄/郤. *)

Definition sample : HanziConv :=
  {| __traditional_charmap := [31777; 36681; 25563; 37092]%N;
     __simplified_charmap := [31616; 36716; 25442; 37060]%N |}.

(** 繁簡轉換器 and 繁简转换器 *)
Definition fan_jian_zhuan_huan_qi_traditional : str :=
  [32321; 31777; 36681; 25563; 22120]%N.
Definition fan_jian_zhuan_huan_qi_simplified : str :=
  [32321; 31616; 36716; 25442; 22120]%N.

(** ** Facts about the Python primitives *)

Section PyFacts.

Lemma char_eqb_eq (a b : char) : char_eqb a b = true <-> a = b.
Proof. apply N.eqb_eq. Qed.

Lemma char_eqb_refl (a : char) : char_eqb a a = true.
Proof. apply N.eqb_refl. Qed.

Lemma char_eqb_neq (a b : char) : char_eqb a b = false <-> a <> b.
Proof. apply N.eqb_neq. Qed.

Lemma str_eqb_eq (a b : str) : str_eqb a b = true <-> a = b.
Proof.
  revert b; induction a as [|x a IH]; intros [|y b]; simpl;
    try (split; [discriminate | congruence]); try tauto.
  rewrite andb_true_iff, char_eqb_eq, IH. split.
  - intros [-> ->]; reflexivity.
  - intros E; injection E; auto.
Qed.

Lemma startswith_single (s : str) (c : char) :
  startswith s [c] = match s with x :: _ => char_eqb c x | [] => false end.
Proof. destruct s as [|x s]; simpl; [reflexivity | apply andb_true_r]. Qed.

Lemma startswith_iff (s sub : str) :
  startswith s sub = true <-> exists post, s = sub ++ post.
Proof.
  revert s; induction sub as [|x sub IH]; intros s; simpl.
  - split; [intros _; exists s; reflexivity | reflexivity].
  - destruct s as [|y s].
    + split; [discriminate | intros [post E]; discriminate].
    + rewrite andb_true_iff, char_eqb_eq, IH. split.
      * intros [-> [post ->]]; exists post; reflexivity.
      * intros [post E]; injection E as -> ->; split; [reflexivity | eauto].
Qed.

(** [sub in s] holds exactly when [s] is [pre ++ sub ++ post]. *)
Lemma contains_iff (s sub : str) :
  contains s sub = true <-> exists pre post, s = pre ++ sub ++ post.
Proof.
  induction s as [|y s IH].
  - simpl. rewrite orb_false_r, startswith_iff. split.
    + intros [post E]; exists [], post; exact E.
    + intros [[|p pre] [post E]]; [exists post; exact E | discriminate].
  - change (contains (y :: s) sub)
      with (startswith (y :: s) sub || contains s sub).
    rewrite orb_true_iff, startswith_iff, IH. split.
    + intros [[post E] | [pre [post E]]].
      * exists [], post; exact E.
      * exists (y :: pre), post; rewrite E; reflexivity.
    + intros [[|p pre] [post E]].
      * left; exists post; exact E.
      * right; injection E as _ E; exists pre, post; exact E.
Qed.

Lemma contains_app_l (s extra sub : str) :
  contains s sub = true -> contains (s ++ extra) sub = true.
Proof.
  rewrite !contains_iff. intros [pre [post ->]].
  exists pre, (post ++ extra). rewrite <- !app_assoc; reflexivity.
Qed.

Lemma contains_concat (groups : list str) (g : str) :
  In g groups -> contains (concat groups) g = true.
Proof.
  intros HI. apply in_split in HI as [l1 [l2 ->]].
  rewrite contains_iff, concat_app; simpl.
  exists (concat l1), (concat l2); reflexivity.
Qed.

Lemma contains_app_r (s extra sub : str) :
  contains extra sub = true -> contains (s ++ extra) sub = true.
Proof.
  rewrite !contains_iff. intros [pre [post ->]].
  exists (s ++ pre), post. rewrite <- app_assoc; reflexivity.
Qed.

(** [find] of one character: [-1] when it is absent, the index of its first
    occurrence otherwise. *)
Lemma find_from_single (s : str) (c : char) (pos : Z) :
  (~ In c s /\ find_from pos s [c] = (-1)%Z) \/
  (exists i, first_at s c i /\ find_from pos s [c] = (pos + Z.of_nat i)%Z).
Proof.
  revert pos; induction s as [|x s IH]; intros pos.
  - left; split; [intros [] | reflexivity].
  - unfold find_from; fold find_from. rewrite startswith_single.
    destruct (char_eqb c x) eqn:E.
    + apply char_eqb_eq in E; subst x. right; exists 0%nat. split.
      * split; [reflexivity | intros j Hj; lia].
      * lia.
    + apply char_eqb_neq in E.
      destruct (IH (pos + 1)%Z) as [[Hn Hf] | [i [[Hi Hlt] Hf]]].
      * left; split; [| exact Hf]. intros [-> | HI]; [apply E; reflexivity | auto].
      * right; exists (S i). split.
        -- split; [exact Hi |].
           intros [|j] Hj; simpl; [congruence | apply Hlt; lia].
        -- rewrite Hf; lia.
Qed.

Lemma find_single (s : str) (c : char) :
  (~ In c s /\ find s [c] = (-1)%Z) \/
  (exists i, first_at s c i /\ find s [c] = Z.of_nat i).
Proof.
  unfold find. destruct (find_from_single s c 0) as [H | [i [H1 H2]]];
    [left; exact H | right; exists i; split; [exact H1 | rewrite H2; lia]].
Qed.

Lemma first_at_unique (s : str) (c : char) (i j : nat) :
  first_at s c i -> first_at s c j -> i = j.
Proof.
  intros [Hi Li] [Hj Lj].
  destruct (Nat.lt_trichotomy i j) as [H | [H | H]]; [| exact H |].
  - exfalso; exact (Lj i H Hi).
  - exfalso; exact (Li j H Hj).
Qed.

Lemma first_at_In (s : str) (c : char) (i : nat) : first_at s c i -> In c s.
Proof. intros [H _]; eapply nth_error_In; exact H. Qed.

Lemma first_at_lt (s : str) (c : char) (i : nat) :
  first_at s c i -> (i < length s)%nat.
Proof. intros [H _]; apply nth_error_Some; congruence. Qed.

Lemma getitem_nat (s : str) (i : nat) :
  getitem s (Z.of_nat i) =
  match nth_error s i with Some c => Ok c | None => Raise IndexError end.
Proof.
  unfold getitem.
  destruct (Z.of_nat i <? 0)%Z eqn:E; [apply Z.ltb_lt in E; lia |].
  rewrite E, Nat2Z.id; reflexivity.
Qed.

Lemma join_singles (ds : str) : join (map (fun d => [d]) ds) = ds.
Proof. induction ds as [|d ds IH]; simpl; [reflexivity | f_equal; exact IH]. Qed.

End PyFacts.

(** ** [split] and [replace] *)

Section SplitDelete.

Lemma concat_split_from (cur s : str) :
  concat (split_from cur s) = cur ++ filter not_space s.
Proof.
  revert cur; induction s as [|c s IH]; intros cur; simpl.
  - destruct cur; simpl; [reflexivity | rewrite !app_nil_r; reflexivity].
  - unfold not_space at 1. destruct (isspace c); simpl.
    + destruct cur; simpl; rewrite IH; reflexivity.
    + rewrite IH, <- app_assoc; reflexivity.
Qed.

(** The flattened character list is the argument without its whitespace. *)
Lemma flattened_filter (s : str) : flattened s = filter not_space s.
Proof. unfold flattened, split. rewrite concat_split_from; reflexivity. Qed.

Lemma split_from_nonempty (cur s : str) :
  Forall (fun g => g <> []) (split_from cur s).
Proof.
  revert cur; induction s as [|c s IH]; intros cur; simpl.
  - destruct cur; constructor; [discriminate | constructor].
  - destruct (isspace c); [| apply IH].
    destruct cur; [apply IH | constructor; [discriminate | apply IH]].
Qed.

(** Deleting a single character deletes each of its occurrences. *)
Lemma delete_single (s : str) (c : char) :
  delete s [c] = filter (fun x => negb (char_eqb c x)) s.
Proof.
  unfold delete. induction s as [|x s IH]; [reflexivity |].
  unfold delete_from; fold delete_from. rewrite startswith_single.
  simpl. destruct (char_eqb c x); simpl; rewrite IH; reflexivity.
Qed.

Lemma filter_filter_str (p q : char -> bool) (s : str) :
  filter q (filter p s) = filter (fun c => p c && q c) s.
Proof.
  induction s as [|x s IH]; simpl; [reflexivity |].
  destruct (p x); simpl; [destruct (q x) |]; rewrite IH; reflexivity.
Qed.

(** Deleting single characters one after the other keeps the characters
    that are none of them. *)
Lemma fold_delete_singles (groups : list str) (s : str) :
  Forall single groups ->
  fold_left delete groups s = without (concat groups) s.
Proof.
  unfold without. revert s; induction groups as [|g groups IH]; intros s HF.
  - simpl. clear HF. induction s as [|x s IHs]; simpl; [| f_equal]; auto.
  - inversion HF as [|g' groups' Hg HF']; subst.
    destruct g as [|c [|c' g]]; try discriminate Hg.
    change (fold_left delete ([c] :: groups) s)
      with (fold_left delete groups (delete s [c])).
    rewrite (IH _ HF'), delete_single, filter_filter_str.
    apply filter_ext. intros x. simpl.
    unfold char_eqb. rewrite (N.eqb_sym x c).
    destruct (N.eqb c x); reflexivity.
Qed.

Lemma In_without (chars inventory : str) (c : char) :
  In c (without chars inventory) <-> In c inventory /\ ~ In c chars.
Proof.
  unfold without. rewrite filter_In, negb_true_iff.
  split; intros [H1 H2]; split; try exact H1.
  - intros HI. assert (existsb (char_eqb c) chars = true) as E.
    { apply existsb_exists. exists c; split; [exact HI | apply char_eqb_refl]. }
    congruence.
  - destruct (existsb (char_eqb c) chars) eqn:E; [| reflexivity].
    apply existsb_exists in E as [x [Hx E]].
    apply char_eqb_eq in E; subst x. contradiction.
Qed.

(** [replace] changes nothing when the group does not occur. *)
Lemma delete_absent (s old : str) :
  contains s old = false -> delete s old = s.
Proof.
  unfold delete. destruct old as [|o old]; [reflexivity |].
  induction s as [|x s IH]; [reflexivity |].
  change (contains (x :: s) (o :: old))
    with (startswith (x :: s) (o :: old) || contains s (o :: old)).
  intros H. apply orb_false_iff in H as [H1 H2].
  unfold delete_from; fold delete_from. rewrite H1, (IH H2); reflexivity.
Qed.

Lemma fold_delete_absent (groups : list str) (s : str) :
  Forall (fun g => contains s g = false) groups ->
  fold_left delete groups s = s.
Proof.
  induction 1 as [|g groups Hg _ IH]; [reflexivity |].
  change (fold_left delete (g :: groups) s)
    with (fold_left delete groups (delete s g)).
  rewrite (@delete_absent s g Hg); exact IH.
Qed.

End SplitDelete.

(** ** The class methods, unfolded *)

Section Methods.

Lemma eta (cls : HanziConv) :
  {| __traditional_charmap := __traditional_charmap cls;
     __simplified_charmap := __simplified_charmap cls |} = cls.
Proof. destruct cls; reflexivity. Qed.

Lemma ignore_simplified_loop (groups : list str) (cls : HanziConv) :
  for_each groups (fun simplified_char =>
    m <- get_simplified ;; set_simplified (delete m simplified_char)) cls =
  (Ok tt, {| __traditional_charmap := __traditional_charmap cls;
             __simplified_charmap :=
               fold_left delete groups (__simplified_charmap cls) |}).
Proof.
  revert cls; induction groups as [|g groups IH]; intros cls.
  - simpl. unfold ret. rewrite eta; reflexivity.
  - simpl. unfold bind at 1. unfold bind at 1. simpl. rewrite IH; reflexivity.
Qed.

Lemma ignore_traditional_loop (groups : list str) (cls : HanziConv) :
  for_each groups (fun traditional_char =>
    m <- get_traditional ;; set_traditional (delete m traditional_char)) cls =
  (Ok tt, {| __traditional_charmap :=
               fold_left delete groups (__traditional_charmap cls);
             __simplified_charmap := __simplified_charmap cls |}).
Proof.
  revert cls; induction groups as [|g groups IH]; intros cls.
  - simpl. unfold ret. rewrite eta; reflexivity.
  - simpl. unfold bind at 1. unfold bind at 1. simpl. rewrite IH; reflexivity.
Qed.

Lemma ignore_char_map_unfold (s t : str) (cls : HanziConv) :
  ignore_char_map s t cls =
  if negb (len s =? len t)%Z then (Raise ArityMismatchError, cls)
  else if negb (len (__simplified_charmap (ignored s t cls)) =?
                len (__traditional_charmap (ignored s t cls)))%Z
       then (Raise ConsistencyError, ignored s t cls)
       else (Ok tt, ignored s t cls).
Proof.
  unfold ignore_char_map. destruct (negb (len s =? len t)%Z); [reflexivity |].
  unfold bind at 1. rewrite ignore_simplified_loop.
  unfold bind at 1. rewrite ignore_traditional_loop. simpl.
  unfold bind, get_simplified, get_traditional; simpl.
  fold (ignored s t cls).
  destruct (negb _); reflexivity.
Qed.

Lemma extra_chars_filter (charmap : str) (groups extra : list str) :
  extra_chars charmap groups extra =
  extra ++ filter (fun g => negb (contains charmap g)) groups.
Proof.
  revert extra; induction groups as [|g groups IH]; intros extra; simpl.
  - rewrite app_nil_r; reflexivity.
  - destruct (contains charmap g); simpl; rewrite IH;
      [| rewrite <- app_assoc]; reflexivity.
Qed.

Lemma extend_char_map_unfold (s t : str) (cls : HanziConv) :
  extend_char_map s t cls =
  if negb (len s =? len t)%Z then (Raise ArityMismatchError, cls)
  else if negb (length (staged (__simplified_charmap cls) s) =?
                length (staged (__traditional_charmap cls) t))%nat
       then (Raise ConsistencyError, cls)
       else (Ok tt, extended s t cls).
Proof.
  unfold extend_char_map. destruct (negb (len s =? len t)%Z); [reflexivity |].
  unfold bind, get_simplified, get_traditional; simpl.
  rewrite !extra_chars_filter; simpl. fold (staged (__simplified_charmap cls) s).
  fold (staged (__traditional_charmap cls) t).
  replace (Z.of_nat (length (staged (__simplified_charmap cls) s)) =?
           Z.of_nat (length (staged (__traditional_charmap cls) t)))%Z
    with (length (staged (__simplified_charmap cls) s) =?
          length (staged (__traditional_charmap cls) t))%nat.
  - destruct (negb _); reflexivity.
  - destruct (Nat.eqb_spec (length (staged (__simplified_charmap cls) s))
                (length (staged (__traditional_charmap cls) t))) as [E | E];
      symmetry; [apply Z.eqb_eq | apply Z.eqb_neq]; lia.
Qed.

Lemma convert_unfold (text : pytext) (toTraditional : bool) (cls : HanziConv) :
  __convert text toTraditional cls =
  (match as_str text with
   | Raise e => Raise e
   | Ok s =>
       match convert_loop (source_inventory toTraditional cls)
               (target_inventory toTraditional cls) s [] with
       | Ok final => Ok (join final)
       | Raise e => Raise e
       end
   end, cls).
Proof.
  unfold __convert. destruct (as_str text) as [s | e]; [| reflexivity].
  unfold bind, get_simplified, get_traditional; simpl.
  unfold source_inventory, target_inventory.
  destruct toTraditional; simpl;
    match goal with |- context [convert_loop ?f ?t ?s ?a] =>
      destruct (convert_loop f t s a) end; reflexivity.
Qed.

End Methods.

(** ** Conversion *)

Section Conversion.

Lemma emits_functional (source target : str) (c d d' : char) :
  emits source target c d -> emits source target c d' -> d = d'.
Proof.
  intros [[i [Hi Hd]] | [Hn ->]] [[j [Hj Hd']] | [Hn' ->]].
  - rewrite (first_at_unique Hi Hj) in Hd. congruence.
  - exfalso; exact (Hn' (first_at_In Hi)).
  - exfalso; exact (Hn (first_at_In Hj)).
  - reflexivity.
Qed.

(** One turn of the loop of [__convert]. *)
Lemma convert_step (fromMap toMap : str) (c : char) :
  (exists d, emits fromMap toMap c d /\
     forall text final,
       convert_loop fromMap toMap (c :: text) final =
       convert_loop fromMap toMap text (final ++ [[d]])) \/
  ((forall d, ~ emits fromMap toMap c d) /\
     forall text final,
       convert_loop fromMap toMap (c :: text) final = Raise IndexError).
Proof.
  destruct (find_single fromMap c) as [[Hn Hf] | [i [Hi Hf]]].
  - left; exists c. split; [right; split; [exact Hn | reflexivity] |].
    intros text final. simpl. rewrite Hf; reflexivity.
  - assert (negb (Z.of_nat i =? -1)%Z = true) as Hneg.
    { apply negb_true_iff, Z.eqb_neq; lia. }
    destruct (nth_error toMap i) as [d |] eqn:Hd.
    + left; exists d. split; [left; exists i; split; assumption |].
      intros text final. simpl. rewrite Hf, Hneg, getitem_nat, Hd; reflexivity.
    + right; split.
      * intros d [[j [Hj Hd']] | [Hn _]].
        -- rewrite (first_at_unique Hj Hi) in Hd'; congruence.
        -- exact (Hn (first_at_In Hi)).
      * intros text final. simpl.
        rewrite Hf, Hneg, getitem_nat, Hd; reflexivity.
Qed.

(** The loop returns exactly the character by character image of the text,
    appended to what [final] held. *)
Lemma convert_loop_ok (fromMap toMap : str) (text : str)
    (final out : list str) :
  convert_loop fromMap toMap text final = Ok out <->
  exists ds, Forall2 (emits fromMap toMap) text ds /\
             out = final ++ map (fun d => [d]) ds.
Proof.
  revert final; induction text as [|c text IH]; intros final.
  - simpl. split.
    + intros E; injection E as <-. exists []; split; [constructor |].
      rewrite app_nil_r; reflexivity.
    + intros [ds [HF ->]]. inversion HF; subst. simpl.
      rewrite app_nil_r; reflexivity.
  - destruct (convert_step fromMap toMap c) as [[d [Hd Hs]] | [Hno Hs]];
      rewrite Hs.
    + rewrite IH. split.
      * intros [ds [HF ->]]. exists (d :: ds); split; [constructor; assumption |].
        rewrite <- app_assoc; reflexivity.
      * intros [ds [HF ->]]. inversion HF as [| c' d' text' ds' Hd' HF']; subst.
        rewrite (emits_functional Hd' Hd). exists ds'; split; [exact HF' |].
        rewrite <- app_assoc; reflexivity.
    + split; [discriminate |].
      intros [ds [HF _]]. inversion HF as [| c' d' text' ds' Hd' HF']; subst.
      exfalso; exact (Hno _ Hd').
Qed.

(** The loop ends with the only exception it can raise when the image does
    not exist. *)
Lemma convert_loop_raise (fromMap toMap : str) (text : str)
    (final : list str) (e : exn) :
  convert_loop fromMap toMap text final = Raise e -> e = IndexError.
Proof.
  revert final; induction text as [|c text IH]; intros final; [discriminate |].
  destruct (convert_step fromMap toMap c) as [[d [_ Hs]] | [_ Hs]]; rewrite Hs.
  - apply IH.
  - congruence.
Qed.

(** When the target inventory is as long as the source inventory, every
    character has an image. *)
Lemma emits_total (source target : str) (c : char) :
  (length source <= length target)%nat -> exists d, emits source target c d.
Proof.
  intros Hlen. destruct (find_single source c) as [[Hn _] | [i [Hi _]]].
  - exists c; right; split; [exact Hn | reflexivity].
  - destruct (nth_error target i) as [d |] eqn:Hd.
    + exists d; left; exists i; split; assumption.
    + apply nth_error_None in Hd. pose proof (first_at_lt Hi). lia.
Qed.

Lemma image_total (source target : str) (text : str) :
  (length source <= length target)%nat ->
  exists ds, Forall2 (emits source target) text ds.
Proof.
  intros Hlen. induction text as [|c text [ds IH]].
  - exists []; constructor.
  - destruct (@emits_total source target c Hlen) as [d Hd].
    exists (d :: ds); constructor; assumption.
Qed.

Lemma I1_inventories (toTraditional : bool) (cls : HanziConv) :
  I1 cls ->
  (length (source_inventory toTraditional cls) <=
   length (target_inventory toTraditional cls))%nat.
Proof.
  unfold I1, source_inventory, target_inventory.
  destruct toTraditional; lia.
Qed.

(** What [__convert] returns on decoded text. *)
Lemma convert_str_ok (s : str) (toTraditional : bool) (cls : HanziConv)
    (out : str) :
  fst (__convert (PyStr s) toTraditional cls) = Ok out <->
  Forall2 (emits (source_inventory toTraditional cls)
                 (target_inventory toTraditional cls)) s out.
Proof.
  rewrite convert_unfold. simpl.
  destruct (convert_loop _ _ s []) as [final | e] eqn:E.
  - apply convert_loop_ok in E as [ds [HF ->]]. simpl. rewrite join_singles.
    split.
    + intros H; injection H as <-; exact HF.
    + intros HF'. f_equal. revert HF HF'. generalize ds out. clear.
      induction s as [|c s IH]; intros ds out HF HF';
        inversion HF; inversion HF'; subst; [reflexivity |].
      f_equal; [eapply emits_functional; eassumption | eapply IH; eassumption].
  - split; [discriminate |]. intros HF.
    assert (convert_loop (source_inventory toTraditional cls)
              (target_inventory toTraditional cls) s [] =
            Ok ([] ++ map (fun d => [d]) out)) as E'.
    { apply convert_loop_ok. exists out; split; [exact HF | reflexivity]. }
    congruence.
Qed.

(** [__convert] does not assign to the class attributes. *)
Lemma convert_state (text : pytext) (toTraditional : bool) (cls : HanziConv) :
  snd (__convert text toTraditional cls) = cls.
Proof. rewrite convert_unfold; reflexivity. Qed.

(** Bytes are decoded first and then treated as the decoded text. *)
Lemma convert_bytes (b : list byte) (toTraditional : bool) (cls : HanziConv) :
  __convert (PyBytes b) toTraditional cls =
  match Utf8.decode b with
  | Some s => __convert (PyStr s) toTraditional cls
  | None => (Raise DecodingError, cls)
  end.
Proof.
  rewrite convert_unfold. simpl.
  destruct (Utf8.decode b) as [s |]; [| reflexivity].
  rewrite convert_unfold; reflexivity.
Qed.

(** Under invariant I1 a conversion of decoded text returns. *)
Lemma convert_str_total (s : str) (toTraditional : bool) (cls : HanziConv) :
  I1 cls -> exists out, fst (__convert (PyStr s) toTraditional cls) = Ok out.
Proof.
  intros HI.
  destruct (@image_total _ _ s (@I1_inventories toTraditional cls HI)) as [ds HF].
  exists ds. apply convert_str_ok; exact HF.
Qed.

End Conversion.

Example toSimplified_docstring :
  toSimplified (PyStr fan_jian_zhuan_huan_qi_traditional) sample =
  (Ok fan_jian_zhuan_huan_qi_simplified, sample).
Proof. reflexivity. Qed.

Example toTraditional_docstring :
  toTraditional (PyStr fan_jian_zhuan_huan_qi_simplified) sample =
  (Ok fan_jian_zhuan_huan_qi_traditional, sample).
Proof. reflexivity. Qed.

Example same_docstring :
  same (PyStr fan_jian_zhuan_huan_qi_simplified)
       (PyStr fan_jian_zhuan_huan_qi_traditional) sample = (Ok true, sample).
Proof. reflexivity. Qed.

(** The UTF-8 bytes of 簡 are decoded before the conversion. *)
Example toSimplified_bytes :
  toSimplified (PyBytes [Init.Byte.xe7; Init.Byte.xb0; Init.Byte.xa1]) sample =
  (Ok [31616%N], sample).
Proof. reflexivity. Qed.

(** ** Properties of the conversion *)

(** C1: [__convert] goes through the text one character at a time, in order:
    it returns [out] exactly when [out] is, position by position, what the
    characters of the (decoded) text emit, where a character found first at
    index [i] of the source inventory emits the character at index [i] of
    the target inventory and a character that is not found emits itself.
    The class attributes are left as they are. *)
Theorem convert_character_by_character
    (text : pytext) (toTraditional : bool) (cls : HanziConv) (out : str) :
  (fst (__convert text toTraditional cls) = Ok out <->
   exists s, as_str text = Ok s /\
             Forall2 (emits (source_inventory toTraditional cls)
                            (target_inventory toTraditional cls)) s out) /\
  snd (__convert text toTraditional cls) = cls.
Proof.
  split; [| apply convert_state].
  destruct text as [b | s].
  - rewrite convert_bytes. simpl. destruct (Utf8.decode b) as [s |].
    + rewrite convert_str_ok. split.
      * intros HF; exists s; split; [reflexivity | exact HF].
      * intros [s' [E HF]]; injection E as <-; exact HF.
    + simpl. split; [discriminate | intros [s' [E _]]; discriminate].
  - rewrite convert_str_ok. simpl. split.
    + intros HF; exists s; split; [reflexivity | exact HF].
    + intros [s' [E HF]]; injection E as <-; exact HF.
Qed.

Lemma same_unfold (text1 text2 : pytext) (cls : HanziConv) :
  same text1 text2 cls =
  match fst (toSimplified text1 cls) with
  | Raise e => (Raise e, cls)
  | Ok t1 =>
      match fst (toSimplified text2 cls) with
      | Raise e => (Raise e, cls)
      | Ok t2 => (Ok (str_eqb t1 t2), cls)
      end
  end.
Proof.
  unfold same, bind, toSimplified.
  rewrite (surjective_pairing (__convert text1 false cls)), convert_state.
  destruct (fst (__convert text1 false cls)) as [t1 | e]; [| reflexivity].
  rewrite (surjective_pairing (__convert text2 false cls)), convert_state.
  destruct (fst (__convert text2 false cls)) as [t2 | e]; reflexivity.
Qed.

(** C2: [same] returns [True] exactly when the two texts have the same
    simplified form, and [False] exactly when they have different ones. *)
Theorem same_iff_simplified_equal (text1 text2 : pytext) (cls : HanziConv) :
  (fst (same text1 text2 cls) = Ok true <->
   exists t, fst (toSimplified text1 cls) = Ok t /\
             fst (toSimplified text2 cls) = Ok t) /\
  (fst (same text1 text2 cls) = Ok false <->
   exists t1 t2, fst (toSimplified text1 cls) = Ok t1 /\
                 fst (toSimplified text2 cls) = Ok t2 /\ t1 <> t2).
Proof.
  rewrite same_unfold.
  destruct (fst (toSimplified text1 cls)) as [t1 | e1];
    [destruct (fst (toSimplified text2 cls)) as [t2 | e2] |]; simpl.
  - destruct (str_eqb t1 t2) eqn:E.
    + apply str_eqb_eq in E; subst t2. split; split.
      * intros _; exists t1; split; reflexivity.
      * reflexivity.
      * discriminate.
      * intros [u1 [u2 [E1 [E2 Hne]]]]. congruence.
    + assert (t1 <> t2) as Hne.
      { intros ->. assert (str_eqb t2 t2 = true) by (apply str_eqb_eq; reflexivity).
        congruence. }
      split; split.
      * discriminate.
      * intros [t [E1 E2]]. congruence.
      * intros _; exists t1, t2; repeat split; assumption.
      * reflexivity.
  - split; split; try discriminate.
    + intros [t [_ E2]]; discriminate.
    + intros [u1 [u2 [_ [E2 _]]]]; discriminate.
  - split; split; try discriminate.
    + intros [t [E1 _]]; discriminate.
    + intros [u1 [u2 [E1 _]]]; discriminate.
Qed.

(** Under invariant I1 [same] returns a truth value for decoded texts. *)
Lemma same_total (s1 s2 : str) (cls : HanziConv) :
  I1 cls -> exists b, same (PyStr s1) (PyStr s2) cls = (Ok b, cls).
Proof.
  intros HI. rewrite same_unfold. unfold toSimplified.
  destruct (@convert_str_total s1 false cls HI) as [t1 ->].
  destruct (@convert_str_total s2 false cls HI) as [t2 ->].
  eexists; reflexivity.
Qed.

(** Converting one character that is in the source inventory. *)
Lemma convert_found (toTraditional : bool) (cls : HanziConv)
    (c d : char) (i : nat) :
  first_at (source_inventory toTraditional cls) c i ->
  nth_error (target_inventory toTraditional cls) i = Some d ->
  fst (__convert (PyStr [c]) toTraditional cls) = Ok [d].
Proof.
  intros Hi Hd. apply convert_str_ok.
  constructor; [| constructor]. left; exists i; split; assumption.
Qed.

(** Pass-through: a character that is not in the source inventory is left
    as it is. *)
Lemma convert_absent (toTraditional : bool) (cls : HanziConv) (c : char) :
  ~ In c (source_inventory toTraditional cls) ->
  fst (__convert (PyStr [c]) toTraditional cls) = Ok [c].
Proof.
  intros Hn. apply convert_str_ok.
  constructor; [| constructor]. right; split; [exact Hn | reflexivity].
Qed.

(** C7: a character that occurs at exactly one position [i] of the
    simplified inventory, where the character at [i] of the traditional
    inventory occurs first at [i], is converted to that traditional
    character, and converting the result back gives the character again. *)
Theorem round_trip_unique_pair (cls : HanziConv) (c d : char) (i : nat) :
  nth_error (__simplified_charmap cls) i = Some c ->
  (forall j, nth_error (__simplified_charmap cls) j = Some c -> j = i) ->
  first_at (__traditional_charmap cls) d i ->
  fst (toTraditional (PyStr [c]) cls) = Ok [d] /\
  fst (toSimplified (PyStr [d]) cls) = Ok [c].
Proof.
  intros Hc Huniq Hd. split.
  - apply (@convert_found true cls c d i); [| exact (proj1 Hd)].
    split; [exact Hc |]. intros j Hj E. apply Huniq in E. lia.
  - apply (@convert_found false cls d c i); [exact Hd | exact Hc].
Qed.

Lemma round_trip_unique_pair_witness :
  fst (toTraditional (PyStr [36716%N]) sample) = Ok [36681%N] /\
  fst (toSimplified (PyStr [36681%N]) sample) = Ok [36716%N].
Proof.
  apply (@round_trip_unique_pair sample 36716%N 36681%N 1%nat).
  - reflexivity.
  - intros [|[|[|[|[|j]]]]]; simpl; intros E; try discriminate E; reflexivity.
  - split; [reflexivity |].
    intros [|j] Hj; [simpl; discriminate | lia].
Defined.

(** The round trip is not the identity in general: where two simplified
    characters share a traditional counterpart, the second of them comes
    back as the first. *)
Example round_trip_not_identity :
  let cls := {| __traditional_charmap := [120; 120]%N;
                __simplified_charmap := [97; 98]%N |} in
  fst (toTraditional (PyStr [98%N]) cls) = Ok [120%N] /\
  fst (toSimplified (PyStr [120%N]) cls) = Ok [97%N].
Proof. split; reflexivity. Qed.

(** C8: the text returned by [__convert] has as many characters as the
    (decoded) input and is its image position by position; under invariant
    I1 such a text is returned. *)
Theorem convert_preserves_length
    (text : pytext) (s : str) (toTraditional : bool) (cls : HanziConv) :
  as_str text = Ok s ->
  (forall out, fst (__convert text toTraditional cls) = Ok out ->
     length out = length s /\
     Forall2 (emits (source_inventory toTraditional cls)
                    (target_inventory toTraditional cls)) s out) /\
  (I1 cls ->
   exists out, fst (__convert text toTraditional cls) = Ok out /\
               length out = length s).
Proof.
  intros Hs.
  assert (__convert text toTraditional cls =
          __convert (PyStr s) toTraditional cls) as ->.
  { rewrite !convert_unfold, Hs; reflexivity. }
  split.
  - intros out E. apply convert_str_ok in E.
    split; [symmetry; eapply Forall2_length; exact E | exact E].
  - intros HI. destruct (@convert_str_total s toTraditional cls HI) as [out E].
    exists out; split; [exact E |].
    apply convert_str_ok in E. symmetry; eapply Forall2_length; exact E.
Qed.

Lemma convert_preserves_length_witness :
  exists out,
    fst (__convert (PyStr fan_jian_zhuan_huan_qi_traditional) false sample) =
    Ok out /\ length out = 5%nat.
Proof.
  apply (@convert_preserves_length
           (PyStr fan_jian_zhuan_huan_qi_traditional)
           fan_jian_zhuan_huan_qi_traditional false sample).
  - reflexivity.
  - reflexivity.
Defined.

(** C10: under invariant I1 every index that the search of the source
    inventory returns is a position of the target inventory, so that
    [toMap[index]] yields a character, and the conversion of any decoded
    text returns. *)
Theorem convert_index_in_bounds (toTraditional : bool) (cls : HanziConv) :
  I1 cls ->
  (forall c, let index := find (source_inventory toTraditional cls) [c] in
     index <> (-1)%Z ->
     (0 <= index < len (target_inventory toTraditional cls))%Z /\
     exists d, getitem (target_inventory toTraditional cls) index = Ok d) /\
  (forall s, exists out, __convert (PyStr s) toTraditional cls = (Ok out, cls)).
Proof.
  intros HI. pose proof (@I1_inventories toTraditional cls HI) as Hlen. split.
  - intros c index Hindex. subst index.
    destruct (find_single (source_inventory toTraditional cls) c)
      as [[_ Hf] | [i [Hi Hf]]]; [contradiction |].
    rewrite Hf. pose proof (first_at_lt Hi) as Hlt. split.
    + unfold len; lia.
    + rewrite getitem_nat.
      destruct (nth_error (target_inventory toTraditional cls) i) as [d |] eqn:Hd;
        [exists d; reflexivity |].
      apply nth_error_None in Hd. lia.
  - intros s. destruct (@convert_str_total s toTraditional cls HI) as [out E].
    exists out. rewrite (surjective_pairing (__convert _ _ _)), convert_state, E.
    reflexivity.
Qed.

Lemma convert_index_in_bounds_witness :
  (0 <= find (source_inventory true sample) [25442%N]
     < len (target_inventory true sample))%Z /\
  exists out,
    __convert (PyStr fan_jian_zhuan_huan_qi_simplified) true sample =
    (Ok out, sample).
Proof.
  assert (I1 sample) as HI by reflexivity.
  destruct (@convert_index_in_bounds true sample HI) as [Hidx Htotal].
  split.
  - apply (Hidx 25442%N). vm_compute. discriminate.
  - apply Htotal.
Defined.

(** The exceptions of [__convert]: [UnicodeDecodeError] for bytes that are
    not UTF-8, and otherwise only [IndexError], which needs inventories of
    different lengths. *)
Lemma convert_raises (text : pytext) (toTraditional : bool)
    (cls : HanziConv) (e : exn) :
  fst (__convert text toTraditional cls) = Raise e ->
  (e = DecodingError /\ exists b, text = PyBytes b /\ Utf8.decode b = None) \/
  (e = IndexError /\ ~ I1 cls).
Proof.
  rewrite convert_unfold. simpl.
  destruct (as_str text) as [s | e'] eqn:Hs.
  - destruct (convert_loop _ _ s []) as [final | e''] eqn:E; [discriminate |].
    intros H; injection H as ->. right. split.
    + eapply convert_loop_raise; exact E.
    + intros HI. destruct (@convert_str_total s toTraditional cls HI) as [out Ho].
      rewrite convert_unfold in Ho. simpl in Ho. rewrite E in Ho. discriminate.
  - intros H; injection H as ->. left.
    destruct text as [b | s]; simpl in Hs; [| discriminate].
    destruct (Utf8.decode b) eqn:Hb; [discriminate |].
    injection Hs as <-. split; [reflexivity | exists b; split; [reflexivity | exact Hb]].
Qed.

(** ** Editing the character map *)

Section Editing.

Lemma errors_differ : ConsistencyError <> ArityMismatchError.
Proof. unfold ConsistencyError, ArityMismatchError. intros E. discriminate E. Qed.

Lemma len_eqb (s t : str) :
  (len s =? len t)%Z = true <-> length s = length t.
Proof. unfold len. rewrite Z.eqb_eq. lia. Qed.

(** An arity error of [ignore_char_map] leaves the attributes alone. *)
Lemma ignore_char_map_arity_state (s t : str) (cls : HanziConv) :
  length s <> length t ->
  ignore_char_map s t cls = (Raise ArityMismatchError, cls).
Proof.
  intros Hne. rewrite ignore_char_map_unfold.
  destruct (len s =? len t)%Z eqn:E; [apply len_eqb in E; contradiction |].
  reflexivity.
Qed.

(** Past the arity check, [ignore_char_map] leaves the attributes as the two
    loops made them, whether it then raises or not. *)
Lemma ignore_char_map_state (s t : str) (cls : HanziConv) :
  length s = length t ->
  snd (ignore_char_map s t cls) = ignored s t cls.
Proof.
  intros Heq. rewrite ignore_char_map_unfold.
  apply len_eqb in Heq. rewrite Heq. simpl.
  destruct (negb _); reflexivity.
Qed.

(** Whatever error [extend_char_map] raises, the attributes are as before. *)
Lemma extend_char_map_error_state (s t : str) (cls : HanziConv) (e : exn) :
  fst (extend_char_map s t cls) = Raise e ->
  snd (extend_char_map s t cls) = cls.
Proof.
  rewrite extend_char_map_unfold.
  destruct (negb (len s =? len t)%Z); [reflexivity |].
  destruct (negb _); [reflexivity | discriminate].
Qed.

(** After a successful [extend_char_map] every group of the arguments occurs
    in its inventory, so nothing is staged a second time. *)
Lemma staged_after_extension (charmap chars : str) :
  staged (charmap ++ join (staged charmap chars)) chars = [].
Proof.
  unfold staged at 1.
  assert (forall groups,
            (forall g, In g groups -> In g (split chars)) ->
            filter (fun g => negb (contains
                      (charmap ++ join (staged charmap chars)) g)) groups = [])
    as H.
  { induction groups as [|g groups IH]; intros Hsub; [reflexivity |].
    simpl. rewrite IH by (intros g' Hg'; apply Hsub; right; exact Hg').
    assert (contains (charmap ++ join (staged charmap chars)) g = true) as ->;
      [| reflexivity].
    destruct (contains charmap g) eqn:E.
    - apply contains_app_l; exact E.
    - apply contains_app_r, contains_concat. unfold staged.
      apply filter_In. split; [apply Hsub; left; reflexivity |].
      rewrite E; reflexivity. }
  apply H. intros g Hg; exact Hg.
Qed.

Lemma contains_single (s : str) (c : char) :
  contains s [c] = existsb (char_eqb c) s.
Proof.
  induction s as [|x s IH]; [reflexivity |].
  change (contains (x :: s) [c])
    with (startswith (x :: s) [c] || contains s [c]).
  rewrite startswith_single, IH; reflexivity.
Qed.

(** For groups of one character, the staged groups are the listed
    characters that are not in the inventory. *)
Lemma staged_singles (charmap : str) (groups : list str) :
  Forall single groups ->
  join (filter (fun g => negb (contains charmap g)) groups) =
  without charmap (concat groups).
Proof.
  unfold without, join. induction groups as [|g groups IH]; intros HF;
    [reflexivity |].
  inversion HF as [|g' groups' Hg HF']; subst.
  destruct g as [|c [|c' g]]; try discriminate Hg.
  simpl. rewrite contains_single.
  destruct (existsb (char_eqb c) charmap); simpl; rewrite (IH HF'); reflexivity.
Qed.

End Editing.

(** C3: the failing call.  With the pair 郄/郤 in the character map, asking to
    ignore 郄 against a character that is not in the traditional inventory
    raises the consistency error, and the simplified inventory has lost 郄
    all the same. *)
Theorem ignore_char_map_error_keeps_deletions :
  ignore_char_map [37060%N] [120%N] sample =
  (Raise ConsistencyError,
   {| __traditional_charmap := [31777; 36681; 25563; 37092]%N;
      __simplified_charmap := [31616; 36716; 25442]%N |}) /\
  snd (ignore_char_map [37060%N] [120%N] sample) <> sample.
Proof. split; [reflexivity | discriminate]. Qed.

(** C4, as stated, fails in both directions: the arguments ["a b"] and
    ["xyz"] have flattened lists of different lengths and the call succeeds,
    and ["a b"] and ["xy"] have flattened lists of the same length and the
    call raises the arity error. *)
Lemma arity_check_counts_whitespace :
  let cls := {| __traditional_charmap := [120; 121; 122; 119]%N;
                __simplified_charmap := [97; 97; 98; 99]%N |} in
  (length (flattened [97; 32; 98]%N) <> length (flattened [120; 121; 122]%N) /\
   ignore_char_map [97; 32; 98]%N [120; 121; 122]%N cls =
   (Ok tt, {| __traditional_charmap := [119%N];
              __simplified_charmap := [99%N] |})) /\
  (length (flattened [97; 32; 98]%N) = length (flattened [120; 121]%N) /\
   ignore_char_map [97; 32; 98]%N [120; 121]%N cls =
   (Raise ArityMismatchError, cls)).
Proof. split; split; try reflexivity. simpl. discriminate. Qed.

(** C4, amended: [ignore_char_map] raises the arity error exactly when its
    two arguments, whitespace included, have different lengths, and then the
    attributes are as before. *)
Theorem ignore_char_map_arity (s t : str) (cls : HanziConv) :
  (fst (ignore_char_map s t cls) = Raise ArityMismatchError <->
   length s <> length t) /\
  (fst (ignore_char_map s t cls) = Raise ArityMismatchError ->
   snd (ignore_char_map s t cls) = cls).
Proof.
  assert (fst (ignore_char_map s t cls) = Raise ArityMismatchError <->
          length s <> length t) as Hiff.
  { split.
    - intros E Heq. rewrite ignore_char_map_unfold in E.
      apply len_eqb in Heq. rewrite Heq in E. simpl in E.
      destruct (negb _); simpl in E; [| discriminate].
      injection E as E. unfold Messages.no_match, Messages.unequal_length in E.
      discriminate E.
    - intros Hne. rewrite (@ignore_char_map_arity_state s t cls Hne); reflexivity. }
  split; [exact Hiff |].
  intros E. apply Hiff in E.
  rewrite (@ignore_char_map_arity_state s t cls E); reflexivity.
Qed.

(** The example of the specification: ["ab"] against ["a"]. *)
Example ignore_char_map_ab_a (cls : HanziConv) :
  ignore_char_map [97; 98]%N [97%N] cls = (Raise ArityMismatchError, cls).
Proof. reflexivity. Qed.




(** Once the pair 郄/郤 is ignored, 郄 is no longer converted. *)
Example ignore_then_convert :
  (ignore_char_map [37060%N] [37092%N] ;; toTraditional (PyStr [37060%N]))
    sample =
  (Ok [37060%N],
   {| __traditional_charmap := [31777; 36681; 25563]%N;
      __simplified_charmap := [31616; 36716; 25442]%N |}).
Proof. reflexivity. Qed.

(** A successful [extend_char_map] passed the arity check and appended
    the staged groups. *)
Lemma extend_char_map_ok (s t : str) (cls : HanziConv) :
  fst (extend_char_map s t cls) = Ok tt ->
  (len s =? len t)%Z = true /\
  snd (extend_char_map s t cls) = extended s t cls.
Proof.
  rewrite extend_char_map_unfold.
  destruct (len s =? len t)%Z; cbn [negb]; [| discriminate].
  destruct (negb _); [discriminate |]. split; reflexivity.
Qed.

(** Extending an extended character map by the same arguments. *)
Lemma extended_again (s t : str) (cls : HanziConv) :
  (len s =? len t)%Z = true ->
  extend_char_map s t (extended s t cls) = (Ok tt, extended s t cls).
Proof.
  intros Hlen. rewrite extend_char_map_unfold, Hlen. cbn [negb].
  assert (staged (__simplified_charmap (extended s t cls)) s = []) as Es
    by apply staged_after_extension.
  assert (staged (__traditional_charmap (extended s t cls)) t = []) as Et
    by apply staged_after_extension.
  rewrite Es, Et. cbn [length Nat.eqb negb]. f_equal.
  unfold extended at 1. rewrite Es, Et. unfold join; cbn [concat].
  rewrite !app_nil_r. apply eta.
Qed.

(** C6, as stated, fails: ["ab"] is one group, and it is appended whole
    although [a] is in the simplified inventory already, and likewise
    ["xy"] although [x] is in the traditional one. *)
Lemma extend_appends_present_character :
  let cls := {| __traditional_charmap := [120%N];
                __simplified_charmap := [97%N] |} in
  extend_char_map [97; 98]%N [120; 121]%N cls =
  (Ok tt, {| __traditional_charmap := [120; 120; 121]%N;
             __simplified_charmap := [97; 97; 98]%N |}) /\
  __simplified_charmap (snd (extend_char_map [97; 98]%N [120; 121]%N cls)) <>
  __simplified_charmap cls ++
  without (__simplified_charmap cls) (flattened [97; 98]%N).
Proof. split; [reflexivity | simpl; discriminate]. Qed.

(** C6, amended: [extend_char_map] skips the whitespace-delimited groups
    that occur in their inventory as a run of characters and, when it
    succeeds, appends the other groups, in order, at the end of both
    inventories; where every group is one character these are the listed
    characters that were not in the inventory.  In every case a second call
    with the same arguments ends as the first did and changes nothing. *)
Theorem extend_char_map_idempotent (s t : str) (cls : HanziConv) :
  let r := extend_char_map s t cls in
  (fst r = Ok tt ->
   __simplified_charmap (snd r) =
     __simplified_charmap cls ++ join (staged (__simplified_charmap cls) s) /\
   __traditional_charmap (snd r) =
     __traditional_charmap cls ++ join (staged (__traditional_charmap cls) t)) /\
  (Forall single (split s) ->
   join (staged (__simplified_charmap cls) s) =
   without (__simplified_charmap cls) (flattened s)) /\
  (Forall single (split t) ->
   join (staged (__traditional_charmap cls) t) =
   without (__traditional_charmap cls) (flattened t)) /\
  extend_char_map s t (snd r) = (fst r, snd r).
Proof.
  intros r. subst r. split; [| split; [| split]].
  - intros E. apply extend_char_map_ok in E as [_ ->]. split; reflexivity.
  - intros HF. apply staged_singles; exact HF.
  - intros HF. apply staged_singles; exact HF.
  - destruct (fst (extend_char_map s t cls)) as [[] | e] eqn:E.
    + apply extend_char_map_ok in E as [Hlen ->].
      apply extended_again; exact Hlen.
    + rewrite (extend_char_map_error_state _ _ _ E).
      rewrite (surjective_pairing (extend_char_map s t cls)) at 1.
      rewrite E, (extend_char_map_error_state _ _ _ E); reflexivity.
Qed.

Lemma extend_char_map_idempotent_witness :
  extend_char_map [33065%N] [20462%N]
    (snd (extend_char_map [33065%N] [20462%N] sample)) =
  (Ok tt,
   {| __traditional_charmap := [31777; 36681; 25563; 37092; 20462]%N;
      __simplified_charmap := [31616; 36716; 25442; 37060; 33065]%N |}).
Proof.
  exact (proj2 (proj2 (proj2
           (extend_char_map_idempotent [33065%N] [20462%N] sample)))).
Defined.

(** C9: the failing calls.  After the call of [ignore_char_map] above has
    raised its consistency error, the traditional inventory is longer than
    the simplified one, and converting 郤, its last character, to simplified
    raises [IndexError]; so does [same]. *)
Theorem convert_raises_after_failed_ignore :
  let cls := snd (ignore_char_map [37060%N] [120%N] sample) in
  reachable cls /\
  toSimplified (PyStr [37092%N]) cls = (Raise IndexError, cls) /\
  same (PyStr [37092%N]) (PyStr [37092%N]) cls = (Raise IndexError, cls).
Proof.
  split; [| split; reflexivity].
  apply reach_ignore, reach_init. reflexivity.
Qed.

(** A call of [extend_char_map] that succeeds with groups of different
    sizes also leaves inventories of different lengths. *)
Example extend_uneven_groups :
  let cls := snd (extend_char_map [97; 98; 32; 99]%N [120; 32; 121; 122]%N
                    {| __traditional_charmap := [121; 122]%N;
                       __simplified_charmap := [99; 100]%N |}) in
  cls = {| __traditional_charmap := [121; 122; 120]%N;
           __simplified_charmap := [99; 100; 97; 98]%N |} /\
  toTraditional (PyStr [98%N]) cls = (Raise IndexError, cls).
Proof. split; reflexivity. Qed.

(** ** Further properties of the conversion and of [same] *)

Section MoreConversion.

Lemma str_eqb_refl (s : str) : str_eqb s s = true.
Proof. apply str_eqb_eq; reflexivity. Qed.

Lemma str_eqb_sym (a b : str) : str_eqb a b = str_eqb b a.
Proof.
  destruct (str_eqb a b) eqn:E1, (str_eqb b a) eqn:E2; try reflexivity.
  - apply str_eqb_eq in E1; subst b. rewrite str_eqb_refl in E2; discriminate.
  - apply str_eqb_eq in E2; subst b. rewrite str_eqb_refl in E1; discriminate.
Qed.

(** The whole outcome of [__convert], from its result. *)
Lemma convert_pair (text : pytext) (toTraditional : bool) (cls : HanziConv)
    (r : result str) :
  fst (__convert text toTraditional cls) = r ->
  __convert text toTraditional cls = (r, cls).
Proof.
  intros <-. rewrite (surjective_pairing (__convert _ _ _)) at 1.
  rewrite convert_state; reflexivity.
Qed.

Lemma first_at_exists (s : str) (c : char) :
  In c s -> exists i, first_at s c i.
Proof.
  intros HI. destruct (find_single s c) as [[Hn _] | [i [Hi _]]];
    [contradiction | exists i; exact Hi].
Qed.

Lemma first_at_app (s extra : str) (c : char) (i : nat) :
  first_at s c i -> first_at (s ++ extra) c i.
Proof.
  intros Hi. pose proof (first_at_lt Hi) as Hlt. destruct Hi as [Hc Hj].
  split.
  - rewrite nth_error_app1 by exact Hlt. exact Hc.
  - intros j Hlt'. rewrite nth_error_app1 by lia. apply Hj; exact Hlt'.
Qed.

Lemma first_at_end (s : str) (c : char) :
  ~ In c s -> first_at (s ++ [c]) c (length s).
Proof.
  intros Hn. split.
  - rewrite nth_error_app2, Nat.sub_diag by lia. reflexivity.
  - intros j Hj. rewrite nth_error_app1 by exact Hj.
    intros E. apply Hn. eapply nth_error_In; exact E.
Qed.

Lemma NoDup_first_at (s : str) (c : char) (i : nat) :
  NoDup s -> nth_error s i = Some c -> first_at s c i.
Proof.
  intros Hnd Hc. split; [exact Hc |].
  intros j Hj E.
  assert (j < length s)%nat as Hlt by (apply nth_error_Some; congruence).
  pose proof (proj1 (NoDup_nth_error s) Hnd j i Hlt) as Hinj.
  rewrite E, Hc in Hinj. specialize (Hinj eq_refl). lia.
Qed.

(** What is emitted is the character itself or a character of the target
    inventory. *)
Lemma emits_cases (source target : str) (c d : char) :
  emits source target c d ->
  (In c source /\ In d target) \/ (~ In c source /\ d = c).
Proof.
  intros [[i [Hi Hd]] | H]; [left | right; exact H].
  split; [exact (first_at_In Hi) | eapply nth_error_In; exact Hd].
Qed.

Lemma emits_passes (source target : str) (s : str) :
  Forall (fun c => ~ In c source) s -> Forall2 (emits source target) s s.
Proof.
  induction 1 as [|c s Hc _ IH]; constructor; [| exact IH].
  right; split; [exact Hc | reflexivity].
Qed.

(** Characters appended to both inventories do not change what a character
    of the source inventory emits. *)
Lemma emits_app (source target xs ys : str) (c d : char) :
  In c source -> emits source target c d ->
  emits (source ++ xs) (target ++ ys) c d.
Proof.
  intros HI [[i [Hi Hd]] | [Hn _]]; [| contradiction].
  left; exists i. split; [apply first_at_app; exact Hi |].
  rewrite nth_error_app1; [exact Hd |].
  apply nth_error_Some; congruence.
Qed.

(** Where the target inventory has no character twice and keeps apart from
    the characters that pass through, the image is undone by the opposite
    lookup. *)
Lemma emits_back (source target : str) (c d : char) :
  NoDup target -> (In c target -> In c source) ->
  emits source target c d -> emits target source d c.
Proof.
  intros Hnd Hpass [[i [Hi Hd]] | [Hn ->]].
  - left; exists i. split; [apply NoDup_first_at; assumption | exact (proj1 Hi)].
  - right; split; [tauto | reflexivity].
Qed.

Lemma inventories_swap (toTraditional : bool) (cls : HanziConv) :
  source_inventory (negb toTraditional) cls = target_inventory toTraditional cls /\
  target_inventory (negb toTraditional) cls = source_inventory toTraditional cls.
Proof. destruct toTraditional; split; reflexivity. Qed.

End MoreConversion.

(** X1: [same] is reflexive: under invariant I1 a text, decoded or
    decodable, is the same as itself. *)
Theorem same_reflexive (text : pytext) (s : str) (cls : HanziConv) :
  I1 cls -> as_str text = Ok s ->
  same text text cls = (Ok true, cls).
Proof.
  intros HI Hs. rewrite same_unfold. unfold toSimplified.
  assert (__convert text false cls = __convert (PyStr s) false cls) as ->
    by (rewrite !convert_unfold, Hs; reflexivity).
  destruct (@convert_str_total s false cls HI) as [t ->].
  rewrite str_eqb_refl; reflexivity.
Qed.

Lemma same_reflexive_witness :
  same (PyBytes [Init.Byte.xe7; Init.Byte.xb0; Init.Byte.xa1])
       (PyBytes [Init.Byte.xe7; Init.Byte.xb0; Init.Byte.xa1]) sample =
  (Ok true, sample).
Proof.
  apply (@same_reflexive _ [31777%N] sample); reflexivity.
Defined.

(** X2: [same] is symmetric in the truth value it returns: the two orders
    of the arguments return the same value whenever either returns. *)
Theorem same_symmetric (text1 text2 : pytext) (cls : HanziConv) (v : bool) :
  fst (same text1 text2 cls) = Ok v <-> fst (same text2 text1 cls) = Ok v.
Proof.
  rewrite !same_unfold.
  destruct (fst (toSimplified text1 cls)) as [t1 | e1],
           (fst (toSimplified text2 cls)) as [t2 | e2]; simpl;
    try (split; discriminate).
  rewrite (str_eqb_sym t1 t2); tauto.
Qed.

(** X3: [same] is transitive. *)
Theorem same_transitive (text1 text2 text3 : pytext) (cls : HanziConv) :
  fst (same text1 text2 cls) = Ok true ->
  fst (same text2 text3 cls) = Ok true ->
  fst (same text1 text3 cls) = Ok true.
Proof.
  rewrite !same_unfold.
  destruct (fst (toSimplified text1 cls)) as [t1 | e1],
           (fst (toSimplified text2 cls)) as [t2 | e2],
           (fst (toSimplified text3 cls)) as [t3 | e3]; simpl;
    try discriminate.
  intros E12 E23. injection E12 as E12. injection E23 as E23.
  apply str_eqb_eq in E12, E23. subst. rewrite str_eqb_refl; reflexivity.
Qed.

Lemma same_transitive_witness :
  fst (same (PyStr fan_jian_zhuan_huan_qi_traditional)
            (PyStr fan_jian_zhuan_huan_qi_traditional) sample) = Ok true.
Proof.
  apply (@same_transitive (PyStr fan_jian_zhuan_huan_qi_traditional)
           (PyStr fan_jian_zhuan_huan_qi_simplified)
           (PyStr fan_jian_zhuan_huan_qi_traditional) sample); reflexivity.
Defined.

(** X4: pass-through of whole texts: a text none of whose characters is in
    the source inventory is returned as it is, whatever the lengths of the
    inventories. *)
Theorem convert_passes_unmapped_text
    (s : str) (toTraditional : bool) (cls : HanziConv) :
  Forall (fun c => ~ In c (source_inventory toTraditional cls)) s ->
  __convert (PyStr s) toTraditional cls = (Ok s, cls).
Proof.
  intros HF. apply convert_pair, convert_str_ok, emits_passes; exact HF.
Qed.

Lemma convert_passes_unmapped_text_witness :
  __convert (PyStr [72; 105; 33]%N) true sample = (Ok [72; 105; 33]%N, sample).
Proof.
  apply convert_passes_unmapped_text.
  repeat constructor; simpl; intuition discriminate.
Defined.

(** X5: conversion goes through concatenation: a text made of two parts is
    converted to [out] exactly when the parts are converted to two texts
    that make up [out]. *)
Theorem convert_concatenation
    (s1 s2 : str) (toTraditional : bool) (cls : HanziConv) (out : str) :
  fst (__convert (PyStr (s1 ++ s2)) toTraditional cls) = Ok out <->
  exists o1 o2,
    fst (__convert (PyStr s1) toTraditional cls) = Ok o1 /\
    fst (__convert (PyStr s2) toTraditional cls) = Ok o2 /\
    out = o1 ++ o2.
Proof.
  rewrite convert_str_ok. split.
  - intros HF. apply Forall2_app_inv_l in HF as [o1 [o2 [H1 [H2 ->]]]].
    exists o1, o2. rewrite !convert_str_ok. auto.
  - intros [o1 [o2 [H1 [H2 ->]]]]. rewrite convert_str_ok in H1, H2.
    apply Forall2_app; assumption.
Qed.

(** X6: the conversion invents no character: at every position the
    returned text has the character of the input or a character of the
    target inventory. *)
Theorem convert_output_characters
    (text : pytext) (s : str) (toTraditional : bool) (cls : HanziConv)
    (out : str) :
  as_str text = Ok s ->
  fst (__convert text toTraditional cls) = Ok out ->
  Forall2 (fun c d => d = c \/ In d (target_inventory toTraditional cls)) s out.
Proof.
  intros Hs.
  assert (__convert text toTraditional cls =
          __convert (PyStr s) toTraditional cls) as ->
    by (rewrite !convert_unfold, Hs; reflexivity).
  rewrite convert_str_ok. apply Forall2_impl.
  intros c d H. apply emits_cases in H. tauto.
Qed.

Lemma convert_output_characters_witness :
  Forall2 (fun c d => d = c \/ In d (target_inventory false sample))
    fan_jian_zhuan_huan_qi_traditional fan_jian_zhuan_huan_qi_simplified.
Proof.
  apply (@convert_output_characters
           (PyStr fan_jian_zhuan_huan_qi_traditional) _ false sample);
    reflexivity.
Defined.

(** X7: round trip of whole texts.  When the inventories have equal length,
    the target inventory has no character twice and every character of the
    text that is in the target inventory is also in the source inventory,
    converting the text and converting the result in the opposite direction
    gives the text again. *)
Theorem round_trip_text (s : str) (toTraditional : bool) (cls : HanziConv) :
  I1 cls ->
  NoDup (target_inventory toTraditional cls) ->
  Forall (fun c => In c (target_inventory toTraditional cls) ->
                   In c (source_inventory toTraditional cls)) s ->
  exists t,
    __convert (PyStr s) toTraditional cls = (Ok t, cls) /\
    __convert (PyStr t) (negb toTraditional) cls = (Ok s, cls).
Proof.
  intros HI Hnd Hpass.
  destruct (@convert_str_total s toTraditional cls HI) as [t Ht].
  exists t. split; [apply convert_pair; exact Ht |].
  apply convert_pair, convert_str_ok. apply convert_str_ok in Ht.
  destruct (inventories_swap toTraditional cls) as [-> ->].
  clear HI. induction Ht as [| c d s t Hcd Ht IH]; [constructor |].
  inversion Hpass as [| c' s' Hc Hs]; subst.
  constructor; [apply emits_back; assumption | apply IH; exact Hs].
Qed.

Lemma round_trip_text_witness :
  exists t,
    __convert (PyStr fan_jian_zhuan_huan_qi_simplified) true sample =
    (Ok t, sample) /\
    __convert (PyStr t) (negb true) sample =
    (Ok fan_jian_zhuan_huan_qi_simplified, sample).
Proof.
  apply round_trip_text.
  - reflexivity.
  - repeat constructor; simpl; intuition discriminate.
  - repeat (apply Forall_cons; [cbv; intuition discriminate |]).
    apply Forall_nil.
Defined.

(** X8: converting twice in the same direction.  When no character of the
    target inventory is in the source inventory, a converted text is left as
    it is by a second conversion in the same direction. *)
Theorem convert_twice
    (s t : str) (toTraditional : bool) (cls : HanziConv) :
  (forall c, In c (target_inventory toTraditional cls) ->
             ~ In c (source_inventory toTraditional cls)) ->
  fst (__convert (PyStr s) toTraditional cls) = Ok t ->
  __convert (PyStr t) toTraditional cls = (Ok t, cls).
Proof.
  intros Hdisj Ht. apply convert_pair, convert_str_ok, emits_passes.
  apply convert_str_ok in Ht.
  induction Ht as [| c d s t Hcd _ IH]; constructor; [| exact IH].
  apply emits_cases in Hcd as [[_ Hd] | [Hn ->]]; [apply Hdisj; exact Hd | exact Hn].
Qed.

Lemma convert_twice_witness :
  __convert (PyStr fan_jian_zhuan_huan_qi_simplified) false sample =
  (Ok fan_jian_zhuan_huan_qi_simplified, sample).
Proof.
  apply (@convert_twice fan_jian_zhuan_huan_qi_traditional _ false sample).
  - intros c HI HI'. simpl in HI, HI'.
    repeat (destruct HI as [<- | HI]; [intuition discriminate |]). exact HI.
  - reflexivity.
Defined.

(** ** Further properties of the editing methods *)

Section MoreEditing.

Lemma split_single (c : char) : isspace c = false -> split [c] = [[c]].
Proof. intros H. unfold split; simpl. rewrite H; reflexivity. Qed.

Lemma existsb_char_false (s : str) (c : char) :
  ~ In c s -> existsb (char_eqb c) s = false.
Proof.
  intros Hn. destruct (existsb (char_eqb c) s) eqn:E; [| reflexivity].
  apply existsb_exists in E as [x [Hx E]]. apply char_eqb_eq in E; subst x.
  contradiction.
Qed.

(** A new character is staged. *)
Lemma staged_new (charmap : str) (c : char) :
  isspace c = false -> ~ In c charmap -> staged charmap [c] = [[c]].
Proof.
  intros Hsp Hn. unfold staged. rewrite (@split_single c Hsp). simpl.
  rewrite contains_single, (@existsb_char_false charmap c Hn); reflexivity.
Qed.

Lemma without_app (chars a b : str) :
  without chars (a ++ b) = without chars a ++ without chars b.
Proof. apply filter_app. Qed.

Lemma without_absent (chars inventory : str) :
  (forall c, In c chars -> ~ In c inventory) ->
  without chars inventory = inventory.
Proof.
  intros Hn. unfold without. induction inventory as [|x inv IH]; [reflexivity |].
  simpl. rewrite existsb_char_false.
  - simpl. f_equal. apply IH. intros c Hc HI. apply (Hn c Hc); right; exact HI.
  - intros HI. apply (Hn x HI); left; reflexivity.
Qed.

Lemma without_itself (c : char) : without [c] [c] = [].
Proof. unfold without; simpl. rewrite char_eqb_refl; reflexivity. Qed.

Lemma without_without (chars inventory : str) :
  without chars (without chars inventory) = without chars inventory.
Proof.
  unfold without. rewrite filter_filter_str. apply filter_ext.
  intros c. apply andb_diag.
Qed.

(** [replace] only takes characters away. *)
Lemma delete_from_In (skip : nat) (s old : str) (c : char) :
  In c (delete_from skip s old) -> In c s.
Proof.
  revert skip; induction s as [|x s IH]; intros skip; [intros [] |].
  unfold delete_from; fold delete_from. destruct skip as [|k].
  - destruct (startswith (x :: s) old).
    + intros H; right; eapply IH; exact H.
    + intros [<- | H]; [left; reflexivity | right; eapply IH; exact H].
  - intros H; right; eapply IH; exact H.
Qed.

Lemma delete_from_length (skip : nat) (s old : str) :
  (length (delete_from skip s old) <= length s)%nat.
Proof.
  revert skip; induction s as [|x s IH]; intros skip; [simpl; lia |].
  unfold delete_from; fold delete_from. destruct skip as [|k].
  - destruct (startswith (x :: s) old); simpl.
    + specialize (IH (length old - 1)%nat); lia.
    + specialize (IH 0%nat); lia.
  - specialize (IH k); simpl; lia.
Qed.

Lemma delete_shrinks (s old : str) :
  (forall c, In c (delete s old) -> In c s) /\
  (length (delete s old) <= length s)%nat.
Proof.
  unfold delete. destruct old as [|o old]; [split; [tauto | lia] |].
  split; [intros c; apply delete_from_In | apply delete_from_length].
Qed.

Lemma fold_delete_shrinks (groups : list str) (s : str) :
  (forall c, In c (fold_left delete groups s) -> In c s) /\
  (length (fold_left delete groups s) <= length s)%nat.
Proof.
  revert s; induction groups as [|g groups IH]; intros s;
    [split; [tauto | simpl; lia] |].
  change (fold_left delete (g :: groups) s)
    with (fold_left delete groups (delete s g)).
  destruct (IH (delete s g)) as [HI Hl]. destruct (delete_shrinks s g) as [HI' Hl'].
  split; [intros c Hc; apply HI', HI; exact Hc | lia].
Qed.

Lemma length_join_singles (groups : list str) :
  Forall single groups -> length (join groups) = length groups.
Proof.
  unfold join. induction 1 as [|g groups Hg _ IH]; [reflexivity |].
  simpl. rewrite length_app, IH, Hg; reflexivity.
Qed.

Lemma staged_single (charmap chars : str) :
  Forall single (split chars) -> Forall single (staged charmap chars).
Proof.
  unfold staged. rewrite !Forall_forall. intros H g Hg.
  apply filter_In in Hg as [Hg _]. apply H; exact Hg.
Qed.

(** The attributes after [extend_char_map] are the old ones, with
    characters appended at the end. *)
Lemma extend_char_map_appends (s t : str) (cls : HanziConv) :
  exists xs ys,
    __simplified_charmap (snd (extend_char_map s t cls)) =
      __simplified_charmap cls ++ xs /\
    __traditional_charmap (snd (extend_char_map s t cls)) =
      __traditional_charmap cls ++ ys.
Proof.
  rewrite extend_char_map_unfold.
  destruct (negb (len s =? len t)%Z);
    [exists [], []; simpl; rewrite !app_nil_r; split; reflexivity |].
  destruct (negb _);
    [exists [], []; simpl; rewrite !app_nil_r; split; reflexivity |].
  eexists _, _; split; reflexivity.
Qed.

(** The attributes after [ignore_char_map] with groups of one character. *)
Lemma ignored_singles (s t : str) (cls : HanziConv) :
  Forall single (split s) -> Forall single (split t) ->
  ignored s t cls =
  {| __traditional_charmap := without (flattened t) (__traditional_charmap cls);
     __simplified_charmap := without (flattened s) (__simplified_charmap cls) |}.
Proof.
  intros Hs Ht. unfold ignored, flattened.
  rewrite (@fold_delete_singles _ _ Hs), (@fold_delete_singles _ _ Ht); reflexivity.
Qed.

(** Extending by a new pair of characters. *)
Lemma extend_new_pair (c d : char) (cls : HanziConv) :
  isspace c = false -> isspace d = false ->
  ~ In c (__simplified_charmap cls) -> ~ In d (__traditional_charmap cls) ->
  extend_char_map [c] [d] cls =
  (Ok tt, {| __traditional_charmap := __traditional_charmap cls ++ [d];
             __simplified_charmap := __simplified_charmap cls ++ [c] |}).
Proof.
  intros Hc Hd Hnc Hnd. rewrite extend_char_map_unfold. unfold extended.
  rewrite (@staged_new _ c Hc Hnc), (@staged_new _ d Hd Hnd). reflexivity.
Qed.

End MoreEditing.

(** X9: [extend_char_map] is atomic: when it raises, the class attributes
    are as before the call, and the exception is the arity error for
    arguments of different lengths or else the consistency error for
    different numbers of staged groups. *)
Theorem extend_char_map_atomic (s t : str) (cls : HanziConv) (e : exn) :
  fst (extend_char_map s t cls) = Raise e ->
  extend_char_map s t cls = (Raise e, cls) /\
  ((e = ArityMismatchError /\ length s <> length t) \/
   (e = ConsistencyError /\ length s = length t /\
    length (staged (__simplified_charmap cls) s) <>
    length (staged (__traditional_charmap cls) t))).
Proof.
  rewrite extend_char_map_unfold.
  destruct (len s =? len t)%Z eqn:Hlen; cbn [negb].
  - apply len_eqb in Hlen.
    destruct (Nat.eqb_spec (length (staged (__simplified_charmap cls) s))
                (length (staged (__traditional_charmap cls) t))) as [E | E];
      cbn [negb fst]; [discriminate |].
    intros H; injection H as <-. split; [reflexivity | right; auto].
  - cbn [fst]. intros H; injection H as <-. split; [reflexivity | left].
    split; [reflexivity |]. intros E. apply len_eqb in E. congruence.
Qed.

Lemma extend_char_map_atomic_witness :
  extend_char_map [37060%N] [120%N] sample = (Raise ConsistencyError, sample).
Proof.
  apply (@extend_char_map_atomic [37060%N] [120%N] sample ConsistencyError).
  reflexivity.
Defined.

(** X10: a new pair can be looked up in both directions.  Under invariant
    I1, extending by one simplified character and one traditional character,
    neither whitespace nor already in its inventory, succeeds, appends the
    two characters, and from then on each is converted to the other. *)
Theorem extend_char_map_new_pair (c d : char) (cls : HanziConv) :
  I1 cls -> isspace c = false -> isspace d = false ->
  ~ In c (__simplified_charmap cls) -> ~ In d (__traditional_charmap cls) ->
  let cls' := {| __traditional_charmap := __traditional_charmap cls ++ [d];
                 __simplified_charmap := __simplified_charmap cls ++ [c] |} in
  extend_char_map [c] [d] cls = (Ok tt, cls') /\
  toTraditional (PyStr [c]) cls' = (Ok [d], cls') /\
  toSimplified (PyStr [d]) cls' = (Ok [c], cls').
Proof.
  intros HI Hc Hd Hnc Hnd cls'. unfold I1 in HI. split; [| split].
  - apply extend_new_pair; assumption.
  - apply convert_pair.
    apply (@convert_found true cls' c d (length (__simplified_charmap cls))).
    + apply first_at_end; exact Hnc.
    + simpl. rewrite HI, nth_error_app2, Nat.sub_diag by lia. reflexivity.
  - apply convert_pair.
    apply (@convert_found false cls' d c (length (__traditional_charmap cls))).
    + apply first_at_end; exact Hnd.
    + simpl. rewrite <- HI, nth_error_app2, Nat.sub_diag by lia. reflexivity.
Qed.

Lemma extend_char_map_new_pair_witness :
  let cls' := {| __traditional_charmap := __traditional_charmap sample ++ [20462%N];
                 __simplified_charmap := __simplified_charmap sample ++ [33065%N] |} in
  extend_char_map [33065%N] [20462%N] sample = (Ok tt, cls') /\
  toTraditional (PyStr [33065%N]) cls' = (Ok [20462%N], cls') /\
  toSimplified (PyStr [20462%N]) cls' = (Ok [33065%N], cls').
Proof.
  apply (@extend_char_map_new_pair 33065%N 20462%N sample).
  - reflexivity.
  - reflexivity.
  - reflexivity.
  - cbv; intuition discriminate.
  - cbv; intuition discriminate.
Defined.

(** X11: [extend_char_map] never changes the conversion of text whose
    characters are in the source inventory: whatever the arguments and the
    outcome of the call, such a text is converted afterwards to what it was
    converted to before. *)
Theorem extend_char_map_keeps_conversions
    (s t : str) (text out : str) (toTraditional : bool) (cls : HanziConv) :
  Forall (fun c => In c (source_inventory toTraditional cls)) text ->
  fst (__convert (PyStr text) toTraditional cls) = Ok out ->
  fst (__convert (PyStr text) toTraditional (snd (extend_char_map s t cls))) =
  Ok out.
Proof.
  intros Hin Hout. apply convert_str_ok. apply convert_str_ok in Hout.
  destruct (extend_char_map_appends s t cls) as [xs [ys [Es Et]]].
  assert (exists xs' ys',
            source_inventory toTraditional (snd (extend_char_map s t cls)) =
              source_inventory toTraditional cls ++ xs' /\
            target_inventory toTraditional (snd (extend_char_map s t cls)) =
              target_inventory toTraditional cls ++ ys') as [xs' [ys' [-> ->]]].
  { unfold source_inventory, target_inventory. destruct toTraditional;
      rewrite Es, Et; eauto. }
  induction Hout as [| c d text out Hcd _ IH]; [constructor |].
  inversion Hin as [| c' text' Hc Hin']; subst.
  constructor; [apply emits_app; assumption | apply IH; exact Hin'].
Qed.

Lemma extend_char_map_keeps_conversions_witness :
  fst (__convert (PyStr [31616; 36716]%N) true
         (snd (extend_char_map [33065%N] [20462%N] sample))) =
  Ok [31777; 36681]%N.
Proof.
  apply extend_char_map_keeps_conversions.
  - repeat (apply Forall_cons; [cbv; intuition |]). apply Forall_nil.
  - reflexivity.
Defined.

(** X12: with groups of one character, [extend_char_map] keeps invariant
    I1, whatever its outcome. *)
Theorem extend_char_map_keeps_I1 (s t : str) (cls : HanziConv) :
  I1 cls -> Forall single (split s) -> Forall single (split t) ->
  I1 (snd (extend_char_map s t cls)).
Proof.
  intros HI Hs Ht. rewrite extend_char_map_unfold.
  destruct (negb (len s =? len t)%Z); [exact HI |].
  destruct (Nat.eqb_spec (length (staged (__simplified_charmap cls) s))
              (length (staged (__traditional_charmap cls) t))) as [E | E];
    cbn [negb snd]; [| exact HI].
  unfold I1, extended in *; simpl. rewrite !length_app.
  rewrite (@length_join_singles _ (@staged_single (__simplified_charmap cls) s Hs)).
  rewrite (@length_join_singles _ (@staged_single (__traditional_charmap cls) t Ht)). lia.
Qed.

Lemma extend_char_map_keeps_I1_witness :
  I1 (snd (extend_char_map [33065; 32; 31616]%N [20462; 32; 31777]%N sample)).
Proof.
  apply extend_char_map_keeps_I1.
  - reflexivity.
  - repeat constructor.
  - repeat constructor.
Defined.

(** X13: the outcome of [ignore_char_map] tells the state of invariant I1
    after the call: it returns exactly when the arguments have equal lengths
    and the inventories it leaves have equal lengths, also when they had not
    before, and it raises the consistency error exactly when the arguments
    have equal lengths and the inventories it leaves have not. *)
Theorem ignore_char_map_outcome (s t : str) (cls : HanziConv) :
  (fst (ignore_char_map s t cls) = Ok tt <->
   length s = length t /\ I1 (snd (ignore_char_map s t cls))) /\
  (fst (ignore_char_map s t cls) = Raise ConsistencyError <->
   length s = length t /\ ~ I1 (snd (ignore_char_map s t cls))).
Proof.
  rewrite ignore_char_map_unfold. unfold I1.
  destruct (len s =? len t)%Z eqn:Hlen; cbn [negb].
  - apply len_eqb in Hlen.
    destruct (len (__simplified_charmap (ignored s t cls)) =?
              len (__traditional_charmap (ignored s t cls)))%Z eqn:E;
      cbn [negb fst snd].
    + apply len_eqb in E. split; split; try discriminate; try tauto.
    + assert (length (__simplified_charmap (ignored s t cls)) <>
              length (__traditional_charmap (ignored s t cls))) as Hne.
      { intros H. apply len_eqb in H. congruence. }
      split; split; try discriminate; try tauto.
  - assert (length s <> length t) as Hne.
    { intros H. apply len_eqb in H. congruence. }
    cbn [fst snd]. split; split; try discriminate; try tauto.
Qed.

(** X14: ignored characters pass through.  After a call of
    [ignore_char_map] that passes the arity check with groups of one
    character, whether it then returns or raises, a character listed in
    [simplified_chars] is left as it is by [toTraditional] and a character
    listed in [traditional_chars] is left as it is by [toSimplified]. *)
Theorem ignored_characters_pass_through (s t : str) (cls : HanziConv) :
  length s = length t ->
  Forall single (split s) -> Forall single (split t) ->
  let cls' := snd (ignore_char_map s t cls) in
  (forall c, In c (flattened s) ->
     toTraditional (PyStr [c]) cls' = (Ok [c], cls')) /\
  (forall d, In d (flattened t) ->
     toSimplified (PyStr [d]) cls' = (Ok [d], cls')).
Proof.
  intros Hlen Hs Ht cls'. subst cls'.
  rewrite (@ignore_char_map_state s t cls Hlen), (@ignored_singles s t cls Hs Ht).
  split; intros c Hc; apply convert_pair, convert_absent; simpl;
    intros HI; apply In_without in HI; tauto.
Qed.

Lemma ignored_characters_pass_through_witness :
  toTraditional (PyStr [37060%N])
    (snd (ignore_char_map [37060%N] [37092%N] sample)) =
  (Ok [37060%N], snd (ignore_char_map [37060%N] [37092%N] sample)).
Proof.
  apply (@ignored_characters_pass_through [37060%N] [37092%N] sample).
  - reflexivity.
  - repeat constructor.
  - repeat constructor.
  - left; reflexivity.
Defined.

(** X15: with groups of one character [ignore_char_map] is idempotent: a
    second call with the same arguments ends as the first did and leaves
    the inventories as the first left them. *)
Theorem ignore_char_map_idempotent (s t : str) (cls : HanziConv) :
  Forall single (split s) -> Forall single (split t) ->
  ignore_char_map s t (snd (ignore_char_map s t cls)) = ignore_char_map s t cls.
Proof.
  intros Hs Ht.
  assert (ignored s t (ignored s t cls) = ignored s t cls) as Hidem.
  { rewrite !(@ignored_singles s t _ Hs Ht). simpl.
    rewrite !without_without; reflexivity. }
  rewrite (ignore_char_map_unfold s t cls).
  destruct (negb (len s =? len t)%Z) eqn:Hlen; cbn [snd].
  - rewrite ignore_char_map_unfold, Hlen; reflexivity.
  - destruct (negb (len (__simplified_charmap (ignored s t cls)) =?
                    len (__traditional_charmap (ignored s t cls)))%Z) eqn:E;
      cbn [snd]; rewrite ignore_char_map_unfold, Hlen, Hidem, E; reflexivity.
Qed.

Lemma ignore_char_map_idempotent_witness :
  ignore_char_map [37060%N] [37092%N]
    (snd (ignore_char_map [37060%N] [37092%N] sample)) =
  ignore_char_map [37060%N] [37092%N] sample.
Proof.
  apply ignore_char_map_idempotent; repeat constructor.
Defined.

(** X16: ignoring groups that do not occur.  Under invariant I1, a call of
    [ignore_char_map] whose arguments have equal lengths and none of whose
    groups occurs in its inventory returns and changes nothing. *)
Theorem ignore_char_map_absent_groups (s t : str) (cls : HanziConv) :
  I1 cls -> length s = length t ->
  Forall (fun g => contains (__simplified_charmap cls) g = false) (split s) ->
  Forall (fun g => contains (__traditional_charmap cls) g = false) (split t) ->
  ignore_char_map s t cls = (Ok tt, cls).
Proof.
  intros HI Hlen Hs Ht. rewrite ignore_char_map_unfold.
  apply len_eqb in Hlen. rewrite Hlen. cbn [negb].
  assert (ignored s t cls = cls) as ->.
  { unfold ignored. rewrite (@fold_delete_absent _ _ Hs), (@fold_delete_absent _ _ Ht).
    apply eta. }
  apply len_eqb in HI. rewrite HI; reflexivity.
Qed.

Lemma ignore_char_map_absent_groups_witness :
  ignore_char_map [31616; 25442]%N [31777; 25563]%N sample = (Ok tt, sample).
Proof.
  apply ignore_char_map_absent_groups.
  - reflexivity.
  - reflexivity.
  - repeat constructor.
  - repeat constructor.
Defined.

(** X17: [ignore_char_map] only takes characters away: whatever the
    arguments and the outcome, every character of an inventory after the
    call was in it before, and no inventory is longer than before. *)
Theorem ignore_char_map_shrinks (s t : str) (cls : HanziConv) :
  let cls' := snd (ignore_char_map s t cls) in
  (forall c, In c (__simplified_charmap cls') -> In c (__simplified_charmap cls)) /\
  (forall c, In c (__traditional_charmap cls') ->
             In c (__traditional_charmap cls)) /\
  (length (__simplified_charmap cls') <= length (__simplified_charmap cls))%nat /\
  (length (__traditional_charmap cls') <= length (__traditional_charmap cls))%nat.
Proof.
  intros cls'. subst cls'. rewrite ignore_char_map_unfold.
  destruct (negb (len s =? len t)%Z); cbn [snd]; [repeat split; auto |].
  assert (snd (if negb (len (__simplified_charmap (ignored s t cls)) =?
                        len (__traditional_charmap (ignored s t cls)))%Z
               then (@Raise unit ConsistencyError, ignored s t cls)
               else (Ok tt, ignored s t cls)) = ignored s t cls) as ->
    by (destruct (negb _); reflexivity).
  unfold ignored; simpl.
  destruct (fold_delete_shrinks (split s) (__simplified_charmap cls)) as [H1 H2].
  destruct (fold_delete_shrinks (split t) (__traditional_charmap cls)) as [H3 H4].
  repeat split; assumption.
Qed.

(** X18: adding a pair and ignoring it again.  Under invariant I1,
    extending by a new pair of characters and then ignoring the same pair
    gives the inventories back as they were; both calls return. *)
Theorem extend_then_ignore (c d : char) (cls : HanziConv) :
  I1 cls -> isspace c = false -> isspace d = false ->
  ~ In c (__simplified_charmap cls) -> ~ In d (__traditional_charmap cls) ->
  (extend_char_map [c] [d] ;; ignore_char_map [c] [d]) cls = (Ok tt, cls).
Proof.
  intros HI Hc Hd Hnc Hnd. unfold bind.
  rewrite (@extend_new_pair c d cls Hc Hd Hnc Hnd).
  rewrite ignore_char_map_unfold.
  replace (negb (len [c] =? len [d])%Z) with false by reflexivity.
  assert (ignored [c] [d]
            {| __traditional_charmap := __traditional_charmap cls ++ [d];
               __simplified_charmap := __simplified_charmap cls ++ [c] |} = cls)
    as ->.
  { rewrite ignored_singles
      by (rewrite split_single by assumption; repeat constructor).
    unfold flattened. rewrite !split_single by assumption. simpl.
    rewrite !without_app, !without_itself, !app_nil_r.
    rewrite !without_absent; [apply eta | |];
      intros x [<- | []]; assumption. }
  apply len_eqb in HI. rewrite HI; reflexivity.
Qed.

Lemma extend_then_ignore_witness :
  (extend_char_map [33065%N] [20462%N] ;; ignore_char_map [33065%N] [20462%N])
    sample = (Ok tt, sample).
Proof.
  apply extend_then_ignore.
  - reflexivity.
  - reflexivity.
  - reflexivity.
  - cbv; intuition discriminate.
  - cbv; intuition discriminate.
Defined.

(** ** Ignoring a pair and the other pairs *)

Section AlignedPair.

Lemma emits_cons (a b : char) (source target : str) (x y : char) :
  emits (a :: source) (b :: target) x y <->
  (x = a /\ y = b) \/ (x <> a /\ emits source target x y).
Proof.
  split.
  - intros [[[|i] [[Hx Hlt] Hy]] | [Hn ->]].
    + simpl in Hx, Hy. left; split; congruence.
    + right. simpl in Hx, Hy. split.
      * intros ->. apply (Hlt 0%nat); [lia | reflexivity].
      * left; exists i. split; [split; [exact Hx |] | exact Hy].
        intros j Hj. apply (Hlt (S j)); lia.
    + right. split.
      * intros ->. apply Hn; left; reflexivity.
      * right; split; [| reflexivity]. intros HI; apply Hn; right; exact HI.
  - intros [[-> ->] | [Hne [[i [[Hx Hlt] Hy]] | [Hn ->]]]].
    + left; exists 0%nat. split; [split; [reflexivity | intros j Hj; lia] |].
      reflexivity.
    + left; exists (S i). split; [split; [exact Hx |] | exact Hy].
      intros [|j] Hj; simpl; [congruence | apply Hlt; lia].
    + right; split; [| reflexivity].
      intros [-> | HI]; [apply Hne; reflexivity | exact (Hn HI)].
Qed.

Lemma without_cons (c a : char) (s : str) :
  without [c] (a :: s) =
  if char_eqb a c then without [c] s else a :: without [c] s.
Proof.
  unfold without; simpl. rewrite orb_false_r.
  destruct (char_eqb a c); reflexivity.
Qed.

Lemma aligned_flip (c d : char) (source target : str) :
  aligned c d source target -> aligned d c target source.
Proof.
  unfold aligned. induction 1 as [| a b source target H _ IH];
    constructor; [tauto | exact IH].
Qed.

Lemma aligned_without_length (c d : char) (source target : str) :
  aligned c d source target ->
  length (without [c] source) = length (without [d] target).
Proof.
  unfold aligned. induction 1 as [| a b source target H _ IH]; [reflexivity |].
  rewrite !without_cons.
  destruct (char_eqb a c) eqn:Ea, (char_eqb b d) eqn:Eb; simpl;
    try (rewrite IH; reflexivity).
  - apply char_eqb_eq in Ea. apply char_eqb_neq in Eb. tauto.
  - apply char_eqb_neq in Ea. apply char_eqb_eq in Eb. tauto.
Qed.

(** Taking an aligned pair out of both inventories does not change what
    any other character emits. *)
Lemma emits_without (c d : char) (source target : str) (x y : char) :
  aligned c d source target -> x <> c ->
  (emits (without [c] source) (without [d] target) x y <->
   emits source target x y).
Proof.
  unfold aligned. intros Hal Hx.
  induction Hal as [| a b source target H _ IH]; [reflexivity |].
  rewrite !without_cons.
  destruct (char_eqb a c) eqn:Ea, (char_eqb b d) eqn:Eb.
  - apply char_eqb_eq in Ea; subst a. rewrite emits_cons, IH. tauto.
  - apply char_eqb_eq in Ea. apply char_eqb_neq in Eb. tauto.
  - apply char_eqb_neq in Ea. apply char_eqb_eq in Eb. tauto.
  - rewrite !emits_cons, IH. tauto.
Qed.

Lemma Forall2_emits_ext (R1 R2 : char -> char -> Prop) (text out : str) :
  (forall x, In x text -> forall y, R1 x y <-> R2 x y) ->
  Forall2 R1 text out -> Forall2 R2 text out.
Proof.
  intros Hext HF. induction HF as [| x y text out Hxy _ IH]; constructor.
  - apply (Hext x (or_introl eq_refl)); exact Hxy.
  - apply IH. intros x' Hx'. apply Hext; right; exact Hx'.
Qed.

End AlignedPair.

(** X19: ignoring a pair leaves the other pairs alone.  When the simplified
    inventory has [c] exactly at the positions where the traditional
    inventory has [d], the call [ignore_char_map c d] returns, and any text
    without [c] is converted to traditional as before the call, any text
    without [d] to simplified as before the call. *)
Theorem ignore_aligned_pair (c d : char) (cls : HanziConv) :
  isspace c = false -> isspace d = false ->
  aligned c d (__simplified_charmap cls) (__traditional_charmap cls) ->
  let cls' := snd (ignore_char_map [c] [d] cls) in
  fst (ignore_char_map [c] [d] cls) = Ok tt /\
  (forall text, ~ In c text ->
     fst (toTraditional (PyStr text) cls') = fst (toTraditional (PyStr text) cls)) /\
  (forall text, ~ In d text ->
     fst (toSimplified (PyStr text) cls') = fst (toSimplified (PyStr text) cls)).
Proof.
  intros Hc Hd Hal cls'.
  assert (I1 cls) as HI by (eapply Forall2_length; exact Hal).
  assert (ignored [c] [d] cls =
          {| __traditional_charmap := without [d] (__traditional_charmap cls);
             __simplified_charmap := without [c] (__simplified_charmap cls) |})
    as Hig.
  { rewrite ignored_singles
      by (rewrite split_single by assumption; repeat constructor).
    unfold flattened. rewrite !split_single by assumption. reflexivity. }
  assert (ignore_char_map [c] [d] cls = (Ok tt, ignored [c] [d] cls)) as Hcall.
  { rewrite ignore_char_map_unfold.
    replace (negb (len [c] =? len [d])%Z) with false by reflexivity.
    rewrite Hig. cbn [__simplified_charmap __traditional_charmap].
    pose proof (@aligned_without_length c d _ _ Hal) as Hlen.
    apply len_eqb in Hlen. rewrite Hlen; reflexivity. }
  subst cls'. rewrite Hcall. cbn [fst snd]. rewrite Hig.
  split; [reflexivity |]. split; intros text Hn.
  - destruct (@convert_str_total text true cls HI) as [out Hout].
    unfold toTraditional. rewrite Hout.
    apply convert_str_ok. apply convert_str_ok in Hout.
    revert Hout. apply Forall2_emits_ext. intros x Hx y.
    symmetry. apply (@emits_without c d _ _ x y Hal). intros ->; contradiction.
  - destruct (@convert_str_total text false cls HI) as [out Hout].
    unfold toSimplified. rewrite Hout.
    apply convert_str_ok. apply convert_str_ok in Hout.
    revert Hout. apply Forall2_emits_ext. intros x Hx y.
    symmetry. apply (@emits_without d c _ _ x y (@aligned_flip c d _ _ Hal)).
    intros ->; contradiction.
Qed.

Lemma ignore_aligned_pair_witness :
  fst (ignore_char_map [37060%N] [37092%N] sample) = Ok tt.
Proof.
  apply (@ignore_aligned_pair 37060%N 37092%N sample).
  - reflexivity.
  - reflexivity.
  - unfold aligned.
    repeat (apply Forall2_cons;
            [cbv; split; intros H; first [discriminate H | reflexivity] |]).
    apply Forall2_nil.
Defined.

(** ** Bytes *)

Lemma decode_ascii (bs : list byte) :
  Forall (fun b => (Byte.to_N b < 128)%N) bs ->
  Utf8.decode bs = Some (map Byte.to_N bs).
Proof.
  induction 1 as [| b bs Hb _ IH]; [reflexivity |].
  apply N.ltb_lt in Hb.
  unfold Utf8.decode; fold Utf8.decode. cbv zeta.
  rewrite Hb, IH; reflexivity.
Qed.

(** X20: ASCII bytes are converted like the text of the same code points. *)
Theorem convert_ascii_bytes
    (bs : list byte) (toTraditional : bool) (cls : HanziConv) :
  Forall (fun b => (Byte.to_N b < 128)%N) bs ->
  __convert (PyBytes bs) toTraditional cls =
  __convert (PyStr (map Byte.to_N bs)) toTraditional cls.
Proof.
  intros HF. rewrite convert_bytes, (@decode_ascii bs HF); reflexivity.
Qed.

Lemma convert_ascii_bytes_witness :
  __convert (PyBytes [Init.Byte.x48; Init.Byte.x69]) true sample =
  __convert (PyStr [72; 105]%N) true sample.
Proof.
  apply (@convert_ascii_bytes [Init.Byte.x48; Init.Byte.x69] true sample).
  repeat constructor.
Defined.

(** X21: bytes that are not UTF-8.  [__convert] raises
    [UnicodeDecodeError] on them whatever the inventories are, and so does
    [same] when they are its first argument, or its second argument after a
    first one that is converted; the class attributes are left alone. *)
Theorem undecodable_bytes
    (b : list byte) (toTraditional : bool) (cls : HanziConv) :
  Utf8.decode b = None ->
  __convert (PyBytes b) toTraditional cls = (Raise UnicodeDecodeError, cls) /\
  (forall text2, same (PyBytes b) text2 cls = (Raise UnicodeDecodeError, cls)) /\
  (forall text1 t1, fst (toSimplified text1 cls) = Ok t1 ->
     same text1 (PyBytes b) cls = (Raise UnicodeDecodeError, cls)).
Proof.
  intros Hb.
  assert (forall dir, __convert (PyBytes b) dir cls =
                      (Raise UnicodeDecodeError, cls)) as Hconv
    by (intros dir; rewrite convert_bytes, Hb; reflexivity).
  split; [apply Hconv |]. split.
  - intros text2. rewrite same_unfold. unfold toSimplified.
    rewrite Hconv; reflexivity.
  - intros text1 t1 H1. rewrite same_unfold, H1. unfold toSimplified.
    rewrite Hconv; reflexivity.
Qed.

Lemma undecodable_bytes_witness :
  __convert (PyBytes [Init.Byte.xe7; Init.Byte.xb0]) false sample =
  (Raise UnicodeDecodeError, sample).
Proof.
  apply (@undecodable_bytes [Init.Byte.xe7; Init.Byte.xb0] false sample).
  reflexivity.
Defined.
